(** * MOCC_2025 [src/main.py]: the generate / extract / inject / verify loop

    A shallow embedding of [main_workflow] and of the command-line entry
    point of [src/main.py], together with the Python string primitives they
    rely on ([str.split], [str.replace], [str.strip], list indexing, [or]).

    - Text is a list of Unicode code points ([N]), as a Python [str] is.
    - The two agents, the Lean runner, the clock and the file system are
      external: they are represented by an oracle that answers every request
      from the history of the interaction so far, and every request and
      answer is appended to a trace.
    - Python exceptions are an explicit outcome; the local variables of
      [main_workflow] live in the state so that an assignment made inside
      a [try] block survives into its [except] handler. *)

From Stdlib Require Import List NArith Arith Lia Bool String Ascii.
Import ListNotations.

(* ================================================================== *)
(** ** Python text primitives *)
(* ================================================================== *)

Module Str.

(** A Python [str]: a sequence of code points. *)
Definition char := N.
Definition text := list char.

(** String literals of the source; they are all ASCII. *)
Definition lit (s : string) : text :=
  List.map N_of_ascii (list_ascii_of_string s).

(** [str.isspace] on one code point (the Unicode white-space table that
    CPython uses for [str.strip()] without argument). *)
Definition isspace (c : char) : bool :=
  ((9 <=? c) && (c <=? 13) || (28 <=? c) && (c <=? 32)
   || (c =? 133) || (c =? 160) || (c =? 5760)
   || (8192 <=? c) && (c <=? 8202)
   || (c =? 8232) || (c =? 8233) || (c =? 8239) || (c =? 8287)
   || (c =? 12288))%N.

(** [s.startswith(p)], returning what follows the prefix. *)
Fixpoint drop_prefix (p s : text) : option text :=
  match p, s with
  | [], _ => Some s
  | _ :: _, [] => None
  | a :: p', b :: s' => if (a =? b)%N then drop_prefix p' s' else None
  end.

(** [s.partition(sep)]: the text before and the text after the first
    (leftmost) occurrence of [sep], or [None] when [sep] does not occur. *)
Fixpoint partition (sep s : text) : option (text * text) :=
  match drop_prefix sep s with
  | Some rest => Some ([], rest)
  | None =>
      match s with
      | [] => None
      | c :: s' =>
          match partition sep s' with
          | Some (before, after) => Some (c :: before, after)
          | None => None
          end
      end
  end.

(** [sep in s]. *)
Definition contains (sep s : text) : bool :=
  match partition sep s with Some _ => true | None => false end.

(** [s.split(sep, maxsplit)] for a non-empty [sep]: cut at the leftmost
    occurrence, at most [maxsplit] times. *)
Fixpoint split_n (maxsplit : nat) (sep s : text) : list text :=
  match maxsplit with
  | O => [s]
  | S n =>
      match partition sep s with
      | None => [s]
      | Some (before, after) => before :: split_n n sep after
      end
  end.

(** [s.split(sep)]: no limit on the number of cuts.  A non-empty separator
    cannot be cut out of [s] more than [length s] times.  (Python raises
    [ValueError] on an empty separator; the source only splits on non-empty
    literals.) *)
Definition split (sep s : text) : list text := split_n (List.length s) sep s.

(** [sep.join(parts)]. *)
Fixpoint join (sep : text) (parts : list text) : text :=
  match parts with
  | [] => []
  | [p] => p
  | p :: ps => p ++ sep ++ join sep ps
  end.

(** [s.replace(old, new, count)] for a non-empty [old]. *)
Fixpoint replace_n (count : nat) (old new s : text) : text :=
  match count with
  | O => s
  | S n =>
      match partition old s with
      | None => s
      | Some (before, after) => before ++ new ++ replace_n n old new after
      end
  end.

(** [s.replace(old, new)]: every occurrence, left to right. *)
Definition replace (old new s : text) : text :=
  replace_n (List.length s) old new s.

(** [s.count(sub)] for a non-empty [sub]: non-overlapping occurrences. *)
Fixpoint count_n (fuel : nat) (sub s : text) : nat :=
  match fuel with
  | O => 0
  | S n =>
      match partition sub s with
      | None => 0
      | Some (_, after) => S (count_n n sub after)
      end
  end.

Definition count (sub s : text) : nat := count_n (List.length s) sub s.

(** [s.lstrip()], [s.rstrip()], [s.strip()]. *)
Fixpoint lstrip (s : text) : text :=
  match s with
  | [] => []
  | c :: s' => if isspace c then lstrip s' else s
  end.

Fixpoint rstrip (s : text) : text :=
  match s with
  | [] => []
  | c :: s' =>
      match rstrip s' with
      | [] => if isspace c then [] else [c]
      | r => c :: r
      end
  end.

Definition strip (s : text) : text := rstrip (lstrip s).

(** [a or b] on strings: [a] unless it is empty. *)
Definition or_else (a b : text) : text :=
  match a with [] => b | _ => a end.

End Str.
Import Str.

(* ================================================================== *)
(** ** The outside world: agents, Lean runner, clock, files, stdout *)
(* ================================================================== *)

(** [llm = LLM_Agent(model="gpt-4o")] and
    [reasoner = Reasoning_Agent(model="o3-mini")]. *)
Inductive agent : Type := llm | reasoner.

Definition model (a : agent) : text :=
  match a with llm => lit "gpt-4o" | reasoner => lit "o3-mini" end.

(** One chat message, the dict [{"role": ..., "content": ...}]. *)
Record message : Type := Message { role : text; content : text }.

(** The result dict [{"code": ..., "proof": ...}] ([LeanCode]). *)
Record LeanCode : Type := Result { code : text; proof : text }.

(** Python exceptions that occur in the module.  [Error msg] stands for any
    [Exception] raised by an external collaborator, [msg] being [str(e)];
    [SystemExit] is not an [Exception] and is not caught by
    [except Exception]. *)
Inductive exn : Type :=
| IndexError
| Error (msg : text)
| SystemExit (status : N).

Definition str_of_exn (e : exn) : text :=
  match e with
  | IndexError => lit "list index out of range"
  | Error msg => msg
  | SystemExit n => []
  end.

Definition is_Exception (e : exn) : bool :=
  match e with SystemExit _ => false | _ => true end.

(** What the program does to the outside world, in order; each request is
    recorded with the answer it received ([inr msg]: it raised). *)
Inductive event : Type :=
| EvGetResponse (a : agent) (messages : list message) (answer : text + text)
| EvSleep (seconds : N)
| EvExecuteLean (document : text) (answer : bool * text)
| EvRead (path : text) (answer : text + text)
| EvPrint (line : text).

(** The collaborators that are not part of [src/main.py]: each answers from
    the whole history, so they may be stateful and need not answer the same
    request twice in the same way. *)
Record oracle : Type := Oracle {
  get_response : list event -> agent -> list message -> text + text;
  execute_lean_code : list event -> text -> bool * text;
  read_file : list event -> text -> text + text
}.

(** Local variables of [main_workflow] that are assigned more than once. *)
Record locals : Type := Locals {
  code_snippet : text;
  proof_snippet : text;
  last_error : text
}.

Record state : Type := State { vars : locals; trace : list event }.

Inductive outcome (A : Type) : Type :=
| Ok (a : A)
| Raise (e : exn).
Arguments Ok {A} a.
Arguments Raise {A} e.

(** Computations: state passing with exceptions.  A raise keeps the state
    reached so far. *)
Definition M (A : Type) : Type := state -> outcome A * state.

Definition ret {A} (a : A) : M A := fun st => (Ok a, st).

Definition raise {A} (e : exn) : M A := fun st => (Raise e, st).

Definition bind {A B} (m : M A) (k : A -> M B) : M B :=
  fun st =>
    match m st with
    | (Ok a, st') => k a st'
    | (Raise e, st') => (Raise e, st')
    end.

(** [try: m  except Exception as e: handler e]. *)
Definition try_except {A} (m : M A) (handler : exn -> M A) : M A :=
  fun st =>
    match m st with
    | (Ok a, st') => (Ok a, st')
    | (Raise e, st') =>
        if is_Exception e then handler e st' else (Raise e, st')
    end.

Declare Scope py_scope.
Delimit Scope py_scope with py.
Notation "x <- m ;; k" := (bind m (fun x => k))
  (at level 61, m at next level, right associativity) : py_scope.
Notation "m ;; k" := (bind m (fun _ => k))
  (at level 61, right associativity) : py_scope.
Open Scope py_scope.

Definition get_vars : M locals := fun st => (Ok (vars st), st).

Definition set_code_snippet (v : text) : M unit := fun st =>
  (Ok tt, State (Locals v (proof_snippet (vars st)) (last_error (vars st)))
             (trace st)).

Definition set_proof_snippet (v : text) : M unit := fun st =>
  (Ok tt, State (Locals (code_snippet (vars st)) v (last_error (vars st)))
             (trace st)).

Definition set_last_error (v : text) : M unit := fun st =>
  (Ok tt, State (Locals (code_snippet (vars st)) (proof_snippet (vars st)) v)
             (trace st)).

Definition emit (ev : event) : M unit := fun st =>
  (Ok tt, State (vars st) (trace st ++ [ev])).

(** [l[i]]: raises [IndexError] out of range. *)
Definition index {A} (l : list A) (i : nat) : M A :=
  match nth_error l i with
  | Some x => ret x
  | None => raise IndexError
  end.

Definition newline : text := [10%N].

Section Workflow.

Variable world : oracle.

(** [a.get_response(messages)]. *)
Definition call_get_response (a : agent) (messages : list message) : M text :=
  fun st =>
    let answer := get_response world (trace st) a messages in
    let st' := State (vars st)
                 (trace st ++ [EvGetResponse a messages answer]) in
    match answer with
    | inl response => (Ok response, st')
    | inr msg => (Raise (Error msg), st')
    end.

(** [time.sleep(seconds)]. *)
Definition time_sleep (seconds : N) : M unit := emit (EvSleep seconds).

(** [execute_lean_code(filled)]. *)
Definition call_execute_lean_code (filled : text) : M (bool * text) :=
  fun st =>
    let answer := execute_lean_code world (trace st) filled in
    (Ok answer, State (vars st) (trace st ++ [EvExecuteLean filled answer])).

(** [with open(path, "r") as f: f.read()]. *)
Definition open_read (path : text) : M text :=
  fun st =>
    let answer := read_file world (trace st) path in
    let st' := State (vars st) (trace st ++ [EvRead path answer]) in
    match answer with
    | inl data => (Ok data, st')
    | inr msg => (Raise (Error msg), st')
    end.

(** [print(a)] and [print(a, b)]. *)
Definition print1 (a : text) : M unit := emit (EvPrint (a ++ newline)).
Definition print2 (a b : text) : M unit :=
  emit (EvPrint (a ++ lit " " ++ b ++ newline)).

(** [for i in idxs: body]; the body answers [Some r] for [return r]. *)
Fixpoint for_in {R} (idxs : list nat) (body : nat -> M (option R))
    (after : M R) : M R :=
  match idxs with
  | [] => after
  | i :: rest =>
      r <- body i ;;
      match r with
      | Some result => ret result
      | None => for_in rest body after
      end
  end.

(* ------------------------------------------------------------------ *)
(** *** [main_workflow] *)

Definition CODE_START : text := lit "-- << CODE START >>".
Definition CODE_END : text := lit "-- << CODE END >>".
Definition PROOF_START : text := lit "-- << PROOF START >>".
Definition PROOF_END : text := lit "-- << PROOF END >>".
Definition CODE_TOKEN : text := lit "{{code}}".
Definition PROOF_TOKEN : text := lit "{{proof}}".
(** The literal ["{{proof}}\n"] of the fallback. *)
Definition PROOF_TOKEN_NL : text := lit "{{proof}}" ++ newline.

(** Lines 26-37: the messages of round 0.  Inside the f-string the doubled
    braces are single braces. *)
Definition first_messages (problem_description task_lean_code : text)
  : list message :=
  let system_msg :=
    Message (lit "system")
      (lit "You are a Lean 4 expert. Fill the implementation and proof placeholders.") in
  let user_msg :=
    Message (lit "user")
      (lit "Problem Description:" ++ newline ++ problem_description
         ++ newline ++ newline
         ++ lit "Lean Template (with {code} and {proof}):" ++ newline
         ++ task_lean_code) in
  [system_msg; user_msg].

(** Lines 48-65: the messages of the refinement rounds. *)
Definition refine_messages (problem_description task_lean_code : text)
    (v : locals) : list message :=
  let system_msg :=
    Message (lit "system")
      (lit "You are a Lean 4 expert. The previous code failed with an error. "
         ++ lit "Please fix the implementation or proof accordingly.") in
  let user_msg :=
    Message (lit "user")
      (lit "Problem Description:" ++ newline ++ problem_description
         ++ newline ++ newline
         ++ lit "Lean Template:" ++ newline ++ task_lean_code
         ++ newline ++ newline
         ++ lit "Last implementation:" ++ newline ++ code_snippet v
         ++ newline ++ newline
         ++ lit "Last proof:" ++ newline ++ proof_snippet v
         ++ newline ++ newline
         ++ lit "Lean Error Message:" ++ newline ++ last_error v) in
  [system_msg; user_msg].

(** Lines 25-72: build the messages and call the agent of the round, with
    the basic retry on exception. *)
Definition generate (problem_description task_lean_code : text)
    (round_idx : nat) : M text :=
  if Nat.eqb round_idx 0 then
    let messages := first_messages problem_description task_lean_code in
    try_except
      (call_get_response llm messages)
      (fun e =>
         set_last_error (str_of_exn e) ;;
         time_sleep 5 ;;
         call_get_response llm messages)
  else
    v <- get_vars ;;
    let messages := refine_messages problem_description task_lean_code v in
    try_except
      (call_get_response reasoner messages)
      (fun e =>
         set_last_error (str_of_exn e) ;;
         time_sleep 5 ;;
         call_get_response reasoner messages).

(** Lines 75-79: the [try] block, extraction from the markers. *)
Definition extract_markers (response : text) : M unit :=
  after_start <- index (split CODE_START response) 1 ;;
  body <- index (split CODE_END after_start) 0 ;;
  set_code_snippet (strip body) ;;
  after_start <- index (split PROOF_START response) 1 ;;
  body <- index (split PROOF_END after_start) 0 ;;
  set_proof_snippet (strip body).

(** Lines 81-85: the [except] block, fallback extraction. *)
Definition extract_fallback (response : text) : M unit :=
  let parts := split CODE_TOKEN response in
  if Nat.ltb 1 (List.length parts) then
    part <- index parts 1 ;;
    piece <- index (split PROOF_TOKEN_NL part) 0 ;;
    set_code_snippet (strip piece) ;;
    part <- index parts 1 ;;
    piece <- index (split PROOF_TOKEN_NL part) 1 ;;
    set_proof_snippet (strip piece)
  else ret tt.

(** Lines 74-85. *)
Definition extract_fragments (response : text) : M unit :=
  try_except (extract_markers response)
             (fun _ => extract_fallback response).

(** Lines 88-92: [task_lean_code.replace("{{code}}", code_snippet)
    .replace("{{proof}}", proof_snippet)]. *)
Definition inject (task_lean_code code_snippet proof_snippet : text) : text :=
  replace PROOF_TOKEN proof_snippet
    (replace CODE_TOKEN code_snippet task_lean_code).

(** Lines 87-99: fill the template, run Lean, return or remember the
    error. *)
Definition verify (task_lean_code : text) : M (option LeanCode) :=
  v <- get_vars ;;
  let filled := inject task_lean_code (code_snippet v) (proof_snippet v) in
  answer <- call_execute_lean_code filled ;;
  let '(success, stderr) := answer in
  if (success : bool) then
    ret (Some (Result (code_snippet v) (proof_snippet v)))
  else
    set_last_error stderr ;; ret None.

(** One iteration of the [for] loop, lines 24-99. *)
Definition round (problem_description task_lean_code : text)
    (round_idx : nat) : M (option LeanCode) :=
  response <- generate problem_description task_lean_code round_idx ;;
  extract_fragments response ;;
  verify task_lean_code.

(** Line 102: [{"code": code_snippet or "sorry", ...}]. *)
Definition last_try_result : M LeanCode :=
  v <- get_vars ;;
  ret (Result (or_else (code_snippet v) (lit "sorry"))
              (or_else (proof_snippet v) (lit "sorry"))).

(** Lines 19-21: the initial values of the locals. *)
Definition init_locals : M unit := fun st =>
  (Ok tt, State (Locals [] [] []) (trace st)).

Definition main_workflow (problem_description task_lean_code : text)
  : M LeanCode :=
  init_locals ;;
  for_in (seq 0 3) (round problem_description task_lean_code) last_try_result.

(* ------------------------------------------------------------------ *)
(** *** Task loading and the command-line entry point *)

(** [os.path.join(a, b)] of [posixpath]. *)
Definition os_path_join (a b : text) : text :=
  match drop_prefix (lit "/") b with
  | Some _ => b
  | None =>
      match a with
      | [] => b
      | _ => if (last a 0 =? 47)%N then a ++ b else a ++ lit "/" ++ b
      end
  end.

Definition get_problem_and_code_from_taskpath (task_path : text)
  : M (text * text) :=
  desc <- open_read (os_path_join task_path (lit "description.txt")) ;;
  tmpl <- open_read (os_path_join task_path (lit "task.lean")) ;;
  ret (desc, tmpl).


Definition get_task_lean_template_from_taskpath (task_path : text) : M text :=
  open_read (os_path_join task_path (lit "task.lean")).

Definition usage : text := lit "Usage: python src/main.py <task_directory>".

Definition CODE_BANNER : text :=
  newline ++ lit "=== Generated CODE ===" ++ newline.
Definition PROOF_BANNER : text :=
  newline ++ lit "=== Generated PROOF ===" ++ newline.

(** Lines 126-136, with [argv = sys.argv]. *)
Definition script_main (argv : list text) : M unit :=
  if negb (Nat.eqb (List.length argv) 2) then
    print1 usage ;;
    raise (SystemExit 1)
  else
    task_dir <- index argv 1 ;;
    files <- get_problem_and_code_from_taskpath task_dir ;;
    let '(desc, tmpl) := files in
    result <- main_workflow desc tmpl ;;
    print2 CODE_BANNER (code result) ;;
    print2 PROOF_BANNER (proof result).

(** Running from an empty history. *)
Definition start : state := State (Locals [] [] []) [].

Definition run {A} (m : M A) : outcome A * state := m start.

End Workflow.

(** What was written to standard output. *)
Fixpoint stdout (tr : list event) : text :=
  match tr with
  | [] => []
  | EvPrint line :: rest => line ++ stdout rest
  | _ :: rest => stdout rest
  end.

(** The agents called, in order, one entry per invocation. *)
Fixpoint agents_called (tr : list event) : list agent :=
  match tr with
  | [] => []
  | EvGetResponse a _ _ :: rest => a :: agents_called rest
  | _ :: rest => agents_called rest
  end.

(** The responses obtained from the agents, in order. *)
Fixpoint responses (tr : list event) : list text :=
  match tr with
  | [] => []
  | EvGetResponse _ _ (inl r) :: rest => r :: responses rest
  | _ :: rest => responses rest
  end.

(** The messages (or absence of one) of the agents' failures, in order. *)
Fixpoint generation_errors (tr : list event) : list text :=
  match tr with
  | [] => []
  | EvGetResponse _ _ (inr msg) :: rest => msg :: generation_errors rest
  | _ :: rest => generation_errors rest
  end.

(** The verdicts of the Lean runner, in order. *)
Fixpoint verdicts (tr : list event) : list bool :=
  match tr with
  | [] => []
  | EvExecuteLean _ (ok, _) :: rest => ok :: verdicts rest
  | _ :: rest => verdicts rest
  end.

(** Documents submitted to the Lean runner, in order. *)
Fixpoint documents (tr : list event) : list text :=
  match tr with
  | [] => []
  | EvExecuteLean doc _ :: rest => doc :: documents rest
  | _ :: rest => documents rest
  end.

(** A scripted world, for running the program on concrete inputs: the k-th
    agent call receives the k-th entry of [gens], the k-th Lean run the k-th
    entry of [leans], and files are looked up in [files]. *)
Fixpoint lookup_file (path : text) (files : list (text * text)) : text + text :=
  match files with
  | [] => inr (lit "No such file or directory")
  | (p, data) :: rest =>
      if list_eq_dec N.eq_dec p path then inl data else lookup_file path rest
  end.

Definition scripted (gens : list (text + text)) (leans : list (bool * text))
    (files : list (text * text)) : oracle :=
  Oracle
    (fun tr _ _ => nth (List.length (agents_called tr)) gens (inr []))
    (fun tr _ => nth (List.length (verdicts tr)) leans (false, []))
    (fun _ path => lookup_file path files).

(* ================================================================== *)
(** ** Notions used to state the properties *)
(* ================================================================== *)

(** [s.split(sep)[0]]: the text before the first [sep] (all of [s] when
    there is none). *)
Definition before (sep s : text) : text :=
  match partition sep s with
  | Some (b, _) => b
  | None => s
  end.

(** [s.split(sep)[1]] when it exists: the text between the first [sep] and
    the next one. *)
Definition second_piece (sep s : text) : option text :=
  match partition sep s with
  | Some (_, rest) => Some (before sep rest)
  | None => None
  end.

(** What the marker path computes for one pair of markers. *)
Definition between_markers (start_marker end_marker response : text)
  : option text :=
  match second_piece start_marker response with
  | Some piece => Some (strip (before end_marker piece))
  | None => None
  end.

Definition with_code (c : text) (st : state) : state :=
  State (Locals c (proof_snippet (vars st)) (last_error (vars st))) (trace st).

Definition with_proof (p : text) (st : state) : state :=
  State (Locals (code_snippet (vars st)) p (last_error (vars st))) (trace st).

Definition with_last_error (e : text) (st : state) : state :=
  State (Locals (code_snippet (vars st)) (proof_snippet (vars st)) e) (trace st).

Definition with_events (evs : list event) (st : state) : state :=
  State (vars st) (trace st ++ evs).

(** Two states hold the same fragments. *)
Definition same_fragments (st1 st2 : state) : Prop :=
  code_snippet (vars st1) = code_snippet (vars st2)
  /\ proof_snippet (vars st1) = proof_snippet (vars st2).

(** A text that [strip()] leaves alone. *)
Definition stripped (s : text) : Prop := strip s = s.

(** The fragments held after the extraction steps of the given responses,
    in order, starting from a state, or from the initial empty fragments. *)
Definition fragments_after (rs : list text) (st : state) : state :=
  fold_left (fun st r => snd (extract_fragments r st)) rs st.

Definition extracted (rs : list text) : state := fragments_after rs start.

(** The agent and the messages of a round. *)
Definition round_agent (round_idx : nat) : agent :=
  if Nat.eqb round_idx 0 then llm else reasoner.

Definition round_messages (problem_description task_lean_code : text)
    (round_idx : nat) (v : locals) : list message :=
  if Nat.eqb round_idx 0
  then first_messages problem_description task_lean_code
  else refine_messages problem_description task_lean_code v.

(** The events of a generation step that obtains the response [r]: at
    once, or after one failure and the pause. *)
Inductive generated (a : agent) (msgs : list message) (r : text)
  : list event -> Prop :=
| generated_at_once :
    generated a msgs r [EvGetResponse a msgs (inl r)]
| generated_on_retry (m : text) :
    generated a msgs r
      [EvGetResponse a msgs (inr m); EvSleep 5; EvGetResponse a msgs (inl r)].

(** The four ways one round can go, with the events it adds. *)
Inductive round_run (d t : text) (i : nat) (st : state)
  : outcome (option LeanCode) -> state -> Prop :=
| round_generation_failed (m1 m2 : text) (st' : state) :
    same_fragments st' st ->
    trace st' = trace st ++
      [EvGetResponse (round_agent i) (round_messages d t i (vars st)) (inr m1);
       EvSleep 5;
       EvGetResponse (round_agent i) (round_messages d t i (vars st)) (inr m2)] ->
    round_run d t i st (Raise (Error m2)) st'
| round_extraction_raised (g : list event) (r : text) (e : exn) (st' : state) :
    generated (round_agent i) (round_messages d t i (vars st)) r g ->
    fst (extract_fragments r st) = Raise e ->
    trace st' = trace st ++ g ->
    round_run d t i st (Raise e) st'
| round_verified (g : list event) (r stderr : text) (st' : state) :
    generated (round_agent i) (round_messages d t i (vars st)) r g ->
    fst (extract_fragments r st) = Ok tt ->
    same_fragments st' (snd (extract_fragments r st)) ->
    trace st' = trace st ++ g ++
      [EvExecuteLean
         (inject t (code_snippet (vars st')) (proof_snippet (vars st')))
         (true, stderr)] ->
    round_run d t i st
      (Ok (Some (Result (code_snippet (vars st')) (proof_snippet (vars st')))))
      st'
| round_rejected (g : list event) (r stderr : text) (st' : state) :
    generated (round_agent i) (round_messages d t i (vars st)) r g ->
    fst (extract_fragments r st) = Ok tt ->
    same_fragments st' (snd (extract_fragments r st)) ->
    last_error (vars st') = stderr ->
    trace st' = trace st ++ g ++
      [EvExecuteLean
         (inject t (code_snippet (vars st')) (proof_snippet (vars st')))
         (false, stderr)] ->
    round_run d t i st (Ok None) st'.

(** The runs of the loop over the given round indices. *)
Inductive loop_run (d t : text)
  : list nat -> state -> outcome LeanCode -> state -> Prop :=
| loop_exhausted (st : state) :
    loop_run d t [] st
      (Ok (Result (or_else (code_snippet (vars st)) (lit "sorry"))
                  (or_else (proof_snippet (vars st)) (lit "sorry"))))
      st
| loop_returned (i : nat) (rest : list nat) (st st' : state) (res : LeanCode) :
    round_run d t i st (Ok (Some res)) st' ->
    loop_run d t (i :: rest) st (Ok res) st'
| loop_raised (i : nat) (rest : list nat) (st st' : state) (e : exn) :
    round_run d t i st (Raise e) st' ->
    loop_run d t (i :: rest) st (Raise e) st'
| loop_continued (i : nat) (rest : list nat) (st st1 st' : state)
    (out : outcome LeanCode) :
    round_run d t i st (Ok None) st1 ->
    loop_run d t rest st1 out st' ->
    loop_run d t (i :: rest) st out st'.

(** A failed agent call inside [tr] is always followed by the pause and a
    successful second call with the same messages. *)
Definition retries_settled (tr : list event) : Prop :=
  forall pre a msgs m post,
    tr = pre ++ EvGetResponse a msgs (inr m) :: post ->
    exists r post',
      post = EvSleep 5 :: EvGetResponse a msgs (inl r) :: post'.

(** The retry discipline on a whole trace ending with [out]: a failed agent
    call is either a first attempt, followed by a pause of 5 and one second
    call with the same messages whose failure ends the run with that error,
    or it is that failed second call, the last event of the run. *)
Definition retry_discipline {A} (tr : list event) (out : outcome A) : Prop :=
  forall pre a msgs m post,
    tr = pre ++ EvGetResponse a msgs (inr m) :: post ->
    (exists answer post',
        post = EvSleep 5 :: EvGetResponse a msgs answer :: post'
        /\ (forall m2, answer = inr m2 ->
              post' = [] /\ out = Raise (Error m2)))
    \/ (post = [] /\ out = Raise (Error m)
        /\ exists pre' m1,
             pre = pre' ++ [EvGetResponse a msgs (inr m1); EvSleep 5]).

(** A token none of whose proper suffixes is a prefix of it: two of its
    occurrences in a text never overlap. *)
Definition border_free (tok : text) : Prop :=
  forall k, 0 < k < List.length tok ->
    skipn k tok <> firstn (List.length tok - k) tok.

(** [x] is the text a pair of markers delimits in [response]: it starts
    after the first start marker and ends at the first end marker after it,
    and no second start marker begins before that end marker is over. *)
Definition delimits (start_marker end_marker response x : text) : Prop :=
  exists pre rest post,
    partition start_marker response = Some (pre, rest)
    /\ partition end_marker rest = Some (x, post)
    /\ (forall seg more,
          partition start_marker rest = Some (seg, more) ->
          List.length x + List.length end_marker <= List.length seg).

(** Does the extraction step assign the code fragment, the proof fragment,
    on this response (when it does not raise)? *)
Definition assigns_code (response : text) : bool :=
  contains CODE_START response || contains CODE_TOKEN response.

Definition assigns_proof (response : text) : bool :=
  (contains CODE_START response && contains PROOF_START response)
  || contains CODE_TOKEN response.

(* ================================================================== *)
(** ** Further observers of a trace *)
(* ================================================================== *)

(** The pauses taken, in seconds, in order. *)
Fixpoint sleeps (tr : list event) : list N :=
  match tr with
  | [] => []
  | EvSleep n :: rest => n :: sleeps rest
  | _ :: rest => sleeps rest
  end.

(** The paths of the files opened, in order. *)
Fixpoint files_opened (tr : list event) : list text :=
  match tr with
  | [] => []
  | EvRead path _ :: rest => path :: files_opened rest
  | _ :: rest => files_opened rest
  end.

(** A file system that answers the same for a path whatever happened
    before. *)
Definition stable_files (world : oracle) : Prop :=
  forall h1 h2 path, read_file world h1 path = read_file world h2 path.


(** The template filled with the fragments a state holds. *)
Definition filled_with (task_lean_code : text) (st : state) : text :=
  inject task_lean_code (code_snippet (vars st)) (proof_snippet (vars st)).

(** The documents obtained by running the extraction step over the given
    responses in order, from a state, and filling the template after each
    of them. *)
Fixpoint documents_for (task_lean_code : text) (rs : list text) (st : state)
  : list text :=
  match rs with
  | [] => []
  | r :: rest =>
      let st1 := snd (extract_fragments r st) in
      filled_with task_lean_code st1 :: documents_for task_lean_code rest st1
  end.
(* ================================================================== *)
(** ** Facts about the text primitives *)
(* ================================================================== *)

Section StrFacts.

Lemma drop_prefix_spec (p s r : text) :
  drop_prefix p s = Some r <-> s = p ++ r.
Proof.
  revert s; induction p as [|a p IH]; intros s; simpl.
  - split; [intros [= ->] | intros ->]; reflexivity.
  - destruct s as [|b s]; [split; discriminate|].
    destruct (N.eqb_spec a b) as [->|Hne].
    + rewrite IH. split; [intros -> | intros [= ->]]; reflexivity.
    + split; [discriminate | intros [= E _]; congruence].
Qed.

Lemma drop_prefix_app (p r : text) : drop_prefix p (p ++ r) = Some r.
Proof. now apply drop_prefix_spec. Qed.

(** [drop_prefix] only looks at the first [length p] characters. *)
Lemma drop_prefix_none_local (p u b b' : text) :
  List.length p <= List.length u ->
  drop_prefix p (u ++ b) = None -> drop_prefix p (u ++ b') = None.
Proof.
  revert u; induction p as [|a p IH]; intros u Hlen; simpl.
  - discriminate.
  - destruct u as [|c u]; simpl in *; [lia|].
    destruct (a =? c)%N; [apply IH; lia | reflexivity].
Qed.

Lemma partition_sound {sep s before after : text} :
  partition sep s = Some (before, after) -> s = before ++ sep ++ after.
Proof.
  revert before after; induction s as [|c s IH]; intros before after; simpl.
  - destruct (drop_prefix sep []) eqn:E; [|discriminate].
    intros [= <- <-]. now apply drop_prefix_spec in E.
  - destruct (drop_prefix sep (c :: s)) eqn:E.
    + intros [= <- <-]. now apply drop_prefix_spec in E.
    + destruct (partition sep s) as [[b a]|]; [|discriminate].
      intros [= <- <-]. simpl. f_equal. now apply IH.
Qed.

Lemma partition_shorter {sep s before after : text} :
  sep <> [] -> partition sep s = Some (before, after) ->
  List.length after < List.length s.
Proof.
  intros Hsep H. apply partition_sound in H. subst s.
  rewrite !length_app. destruct sep; [congruence | simpl; lia].
Qed.

(** The leftmost occurrence does not depend on what follows it. *)
Lemma partition_local (sep a b b' : text) :
  partition sep (a ++ sep ++ b) = Some (a, b) ->
  partition sep (a ++ sep ++ b') = Some (a, b').
Proof.
  induction a as [|c a IH]; simpl.
  - intros _.
    change (partition sep (sep ++ b') = Some ([], b')).
    destruct (sep ++ b') eqn:E; simpl; rewrite <- E, drop_prefix_app; reflexivity.
  - destruct (drop_prefix sep (c :: a ++ sep ++ b)) eqn:E.
    + intros [= ? ?]; discriminate.
    + change (c :: a ++ sep ++ b) with ((c :: a) ++ sep ++ b) in E.
      rewrite app_assoc in E.
      apply drop_prefix_none_local with (b' := b') in E.
      2:{ rewrite length_app. lia. }
      rewrite <- app_assoc in E. simpl in E. rewrite E.
      destruct (partition sep (a ++ sep ++ b)) as [[x y]|] eqn:P; [|discriminate].
      intros [= -> ->]. now rewrite IH.
Qed.


(** Fuel: a non-empty separator can be cut out at most [length s] times. *)
Lemma split_n_stable (sep : text) :
  sep <> [] ->
  forall n m s, List.length s <= n -> List.length s <= m ->
  split_n n sep s = split_n m sep s.
Proof.
  intros Hne. induction n as [|n IH]; intros m s Hn Hm.
  - destruct s; [|simpl in Hn; lia].
    destruct m; simpl; [reflexivity|].
    destruct (drop_prefix sep []) eqn:E; [|reflexivity].
    apply drop_prefix_spec in E. destruct sep; [congruence | discriminate].
  - destruct m as [|m].
    + destruct s; [|simpl in Hm; lia]. simpl.
      destruct (drop_prefix sep []) eqn:E; [|reflexivity].
      apply drop_prefix_spec in E. destruct sep; [congruence | discriminate].
    + simpl. destruct (partition sep s) as [[b a]|] eqn:P; [|reflexivity].
      pose proof (partition_shorter Hne P) as Hlt.
      rewrite (IH m a) by lia. reflexivity.
Qed.

Lemma split_n_enough (sep : text) (n : nat) :
  sep <> [] ->
  forall s, List.length s <= n -> split_n n sep s = split sep s.
Proof.
  intros Hne s Hlen. unfold split. now apply split_n_stable.
Qed.

Lemma split_none {sep s : text} :
  partition sep s = None -> split sep s = [s].
Proof.
  unfold split. destruct (List.length s); simpl; [reflexivity|].
  now intros ->.
Qed.

Lemma split_some {sep s before after : text} :
  sep <> [] -> partition sep s = Some (before, after) ->
  split sep s = before :: split sep after.
Proof.
  intros Hsep P. pose proof (partition_shorter Hsep P) as Hlt.
  unfold split at 1. destruct (List.length s) as [|n] eqn:E; [lia|].
  simpl. rewrite P. rewrite split_n_enough by (auto; lia). reflexivity.
Qed.

Lemma replace_n_stable (old new : text) :
  old <> [] ->
  forall n m s, List.length s <= n -> List.length s <= m ->
  replace_n n old new s = replace_n m old new s.
Proof.
  intros Hne. induction n as [|n IH]; intros m s Hn Hm.
  - destruct s; [|simpl in Hn; lia].
    destruct m; simpl; [reflexivity|].
    destruct (drop_prefix old []) eqn:E; [|reflexivity].
    apply drop_prefix_spec in E. destruct old; [congruence | discriminate].
  - destruct m as [|m].
    + destruct s; [|simpl in Hm; lia]. simpl.
      destruct (drop_prefix old []) eqn:E; [|reflexivity].
      apply drop_prefix_spec in E. destruct old; [congruence | discriminate].
    + simpl. destruct (partition old s) as [[b a]|] eqn:P; [|reflexivity].
      pose proof (partition_shorter Hne P) as Hlt.
      rewrite (IH m a) by lia. reflexivity.
Qed.

Lemma replace_n_enough (old new : text) (n : nat) :
  old <> [] ->
  forall s, List.length s <= n -> replace_n n old new s = replace old new s.
Proof.
  intros Hne s Hlen. unfold replace. now apply replace_n_stable.
Qed.

Lemma replace_none {old new s : text} :
  partition old s = None -> replace old new s = s.
Proof.
  unfold replace. destruct (List.length s); simpl; [reflexivity|].
  now intros ->.
Qed.

Lemma replace_some {old} new {s before after : text} :
  old <> [] -> partition old s = Some (before, after) ->
  replace old new s = before ++ new ++ replace old new after.
Proof.
  intros Hold P. pose proof (partition_shorter Hold P) as Hlt.
  unfold replace at 1. destruct (List.length s) as [|n] eqn:E; [lia|].
  simpl. rewrite P. rewrite replace_n_enough by (auto; lia). reflexivity.
Qed.

Lemma count_n_stable (sub : text) :
  sub <> [] ->
  forall n m s, List.length s <= n -> List.length s <= m ->
  count_n n sub s = count_n m sub s.
Proof.
  intros Hne. induction n as [|n IH]; intros m s Hn Hm.
  - destruct s; [|simpl in Hn; lia].
    destruct m; simpl; [reflexivity|].
    destruct (drop_prefix sub []) eqn:E; [|reflexivity].
    apply drop_prefix_spec in E. destruct sub; [congruence | discriminate].
  - destruct m as [|m].
    + destruct s; [|simpl in Hm; lia]. simpl.
      destruct (drop_prefix sub []) eqn:E; [|reflexivity].
      apply drop_prefix_spec in E. destruct sub; [congruence | discriminate].
    + simpl. destruct (partition sub s) as [[b a]|] eqn:P; [|reflexivity].
      pose proof (partition_shorter Hne P) as Hlt.
      rewrite (IH m a) by lia. reflexivity.
Qed.

Lemma count_n_enough (sub : text) (n : nat) :
  sub <> [] ->
  forall s, List.length s <= n -> count_n n sub s = count sub s.
Proof.
  intros Hne s Hlen. unfold count. now apply count_n_stable.
Qed.

Lemma count_none {sub s : text} : partition sub s = None -> count sub s = 0.
Proof.
  unfold count. destruct (List.length s); simpl; [reflexivity|].
  now intros ->.
Qed.

Lemma count_some {sub s before after : text} :
  sub <> [] -> partition sub s = Some (before, after) ->
  count sub s = S (count sub after).
Proof.
  intros Hsub P. pose proof (partition_shorter Hsub P) as Hlt.
  unfold count at 1. destruct (List.length s) as [|n] eqn:E; [lia|].
  simpl. rewrite P. rewrite count_n_enough by (auto; lia). reflexivity.
Qed.

(** Induction along the successive leftmost cuts of a text. *)
Lemma cut_ind {sep : text} (Hsep : sep <> []) (P : text -> Prop) :
  (forall s, partition sep s = None -> P s) ->
  (forall s before after,
      partition sep s = Some (before, after) -> P after -> P s) ->
  forall s, P s.
Proof.
  intros Hnone Hsome s.
  remember (List.length s) as n eqn:En.
  revert s En. induction n as [n IH] using lt_wf_ind. intros s ->.
  destruct (partition sep s) as [[b a]|] eqn:E.
  - eapply Hsome; [eassumption|].
    eapply IH; [|reflexivity]. eapply partition_shorter; eassumption.
  - now apply Hnone.
Qed.

Lemma split_not_nil (sep s : text) : split sep s <> [].
Proof.
  unfold split. destruct (List.length s); simpl; [discriminate|].
  destruct (partition sep s) as [[? ?]|]; discriminate.
Qed.

(** Python's identity [s.replace(old, new) == new.join(s.split(old))]. *)
Lemma replace_join_split (old new s : text) :
  old <> [] -> replace old new s = join new (split old s).
Proof.
  intros Hold. induction s as [s Hn | s b a P IH] using (cut_ind Hold).
  - now rewrite replace_none, split_none.
  - rewrite (replace_some new Hold P), (split_some Hold P), IH.
    simpl. destruct (split old a) eqn:E; [|reflexivity].
    now apply split_not_nil in E.
Qed.

(** [s.count(sub) == len(s.split(sub)) - 1]. *)
Lemma count_split (sub s : text) :
  sub <> [] -> S (count sub s) = List.length (split sub s).
Proof.
  intros Hsub. induction s as [s Hn | s b a P IH] using (cut_ind Hsub).
  - now rewrite count_none, split_none.
  - rewrite (count_some Hsub P), (split_some Hsub P). simpl. now rewrite IH.
Qed.

Lemma contains_count (sub s : text) :
  sub <> [] -> contains sub s = negb (Nat.eqb (count sub s) 0).
Proof.
  intros Hsub. unfold contains.
  destruct (partition sub s) as [[b a]|] eqn:P.
  - now rewrite (count_some Hsub P).
  - now rewrite count_none.
Qed.

(** A token that occurs at most once is replaced as by
    [s.replace(old, new, 1)]. *)
Lemma replace_once (old new s : text) :
  old <> [] -> count old s <= 1 -> replace old new s = replace_n 1 old new s.
Proof.
  intros Hold Hc. simpl.
  destruct (partition old s) as [[b a]|] eqn:P.
  - rewrite (replace_some new Hold P). rewrite (count_some Hold P) in Hc.
    destruct (partition old a) as [[b' a']|] eqn:P'.
    + rewrite (count_some Hold P') in Hc. lia.
    + now rewrite replace_none.
  - now apply replace_none.
Qed.

(** *** Stripping *)

Lemma lstrip_idem (s : text) : lstrip (lstrip s) = lstrip s.
Proof.
  induction s as [|c s IH]; simpl; [reflexivity|].
  destruct (isspace c) eqn:E; [assumption | simpl; now rewrite E].
Qed.

Lemma rstrip_idem (s : text) : rstrip (rstrip s) = rstrip s.
Proof.
  induction s as [|c s IH]; simpl; [reflexivity|].
  destruct (rstrip s) as [|d r] eqn:E.
  - destruct (isspace c) eqn:Ec; simpl; [reflexivity | now rewrite Ec].
  - change (rstrip (c :: d :: r))
      with (match rstrip (d :: r) with
            | [] => if isspace c then [] else [c]
            | x :: r' => c :: x :: r'
            end).
    rewrite IH. reflexivity.
Qed.

Lemma lstrip_rstrip_comm (s : text) : lstrip (rstrip s) = rstrip (lstrip s).
Proof.
  induction s as [|c s IH]; simpl; [reflexivity|].
  destruct (isspace c) eqn:Ec.
  - rewrite <- IH. destruct (rstrip s) as [|d r]; simpl; now rewrite ?Ec.
  - simpl. destruct (rstrip s) as [|d r]; simpl; now rewrite ?Ec.
Qed.

Lemma strip_idem (s : text) : strip (strip s) = strip s.
Proof.
  unfold strip.
  now rewrite lstrip_rstrip_comm, lstrip_idem, rstrip_idem.
Qed.

(** *** Tokens whose occurrences cannot overlap *)

Lemma partition_none_cons (sep : text) (c : char) (s : text) :
  partition sep (c :: s) = None ->
  drop_prefix sep (c :: s) = None /\ partition sep s = None.
Proof.
  simpl. destruct (drop_prefix sep (c :: s)); [discriminate|].
  destruct (partition sep s) as [[? ?]|]; [discriminate | auto].
Qed.

Lemma border_free_no_straddle (tok l r : text) :
  border_free tok -> l <> [] -> List.length l < List.length tok ->
  drop_prefix tok (l ++ tok ++ r) = None.
Proof.
  intros Hbf Hl Hlen.
  destruct (drop_prefix tok (l ++ tok ++ r)) as [x|] eqn:E; [|reflexivity].
  exfalso. apply drop_prefix_spec in E.
  apply (Hbf (List.length l)).
  - destruct l; [congruence | simpl in *; lia].
  - assert (Htok : tok = l ++ firstn (List.length tok - List.length l) tok).
    { apply (f_equal (firstn (List.length tok))) in E.
      rewrite !firstn_app, firstn_all, Nat.sub_diag in E.
      rewrite (firstn_all2 l) in E by lia.
      replace (List.length tok - List.length l - List.length tok) with 0 in E
        by lia.
      simpl in E. rewrite !app_nil_r in E. now symmetry. }
    rewrite Htok at 1. rewrite skipn_app, skipn_all, Nat.sub_diag. reflexivity.
Qed.

(** For such a token, the leftmost occurrence in [l ++ tok ++ r] is the one
    displayed whenever [l] contains none. *)
Lemma partition_border_free {tok l : text} (r : text) :
  border_free tok -> partition tok l = None ->
  partition tok (l ++ tok ++ r) = Some (l, r).
Proof.
  intros Hbf. induction l as [|c l IH]; intros Hn.
  - change (partition tok (tok ++ r) = Some ([], r)).
    destruct (tok ++ r) eqn:E; simpl; rewrite <- E, drop_prefix_app;
      reflexivity.
  - apply partition_none_cons in Hn as [Hd Hp].
    assert (Hd' : drop_prefix tok ((c :: l) ++ tok ++ r) = None).
    { destruct (Nat.le_gt_cases (List.length tok) (List.length (c :: l))).
      - rewrite <- (app_nil_r (c :: l)) in Hd.
        now apply drop_prefix_none_local with (b := []).
      - apply border_free_no_straddle; auto. discriminate. }
    simpl in *. rewrite Hd', (IH Hp). reflexivity.
Qed.

(** Hence [replace] works on both sides of a displayed occurrence
    independently. *)
Lemma replace_around (tok new l r : text) :
  tok <> [] -> border_free tok ->
  replace tok new (l ++ tok ++ r)
  = replace tok new l ++ new ++ replace tok new r.
Proof.
  intros Hne Hbf. revert r.
  induction l as [l Hn | l b a P IH] using (cut_ind Hne); intros r.
  - rewrite (replace_some new Hne (partition_border_free r Hbf Hn)).
    now rewrite (replace_none Hn).
  - pose proof (partition_sound P) as ->.
    assert (P' : partition tok ((b ++ tok ++ a) ++ tok ++ r)
                 = Some (b, a ++ tok ++ r)).
    { rewrite <- !app_assoc. apply partition_local with (b := a).
      exact P. }
    rewrite (replace_some new Hne P'), (replace_some new Hne P), IH.
    now rewrite <- !app_assoc.
Qed.

End StrFacts.

(* ================================================================== *)
(** ** The extraction step *)
(* ================================================================== *)

Section Extraction.

Lemma split_first (sep s : text) :
  nth_error (split sep s) 0 = Some (before sep s).
Proof.
  unfold split, before. destruct s as [|c s].
  - simpl. now destruct (drop_prefix sep []).
  - cbn [List.length split_n].
    now destruct (partition sep (c :: s)) as [[b a]|].
Qed.

Lemma split_second {sep : text} (s : text) :
  sep <> [] -> nth_error (split sep s) 1 = second_piece sep s.
Proof.
  intros Hsep. unfold second_piece.
  destruct (partition sep s) as [[b a]|] eqn:P.
  - rewrite (split_some Hsep P). simpl. apply split_first.
  - now rewrite (split_none P).
Qed.

Lemma second_piece_contains (sep s : text) :
  second_piece sep s = None <-> contains sep s = false.
Proof.
  unfold second_piece, contains.
  destruct (partition sep s) as [[b a]|]; split; congruence.
Qed.

Lemma CODE_START_ne : CODE_START <> []. Proof. discriminate. Qed.
Lemma CODE_END_ne : CODE_END <> []. Proof. discriminate. Qed.
Lemma PROOF_START_ne : PROOF_START <> []. Proof. discriminate. Qed.
Lemma PROOF_END_ne : PROOF_END <> []. Proof. discriminate. Qed.
Lemma CODE_TOKEN_ne : CODE_TOKEN <> []. Proof. discriminate. Qed.
Lemma PROOF_TOKEN_ne : PROOF_TOKEN <> []. Proof. discriminate. Qed.
Lemma PROOF_TOKEN_NL_ne : PROOF_TOKEN_NL <> []. Proof. discriminate. Qed.

Lemma index_first (sep s : text) :
  index (split sep s) 0 = ret (before sep s).
Proof. unfold index. now rewrite split_first. Qed.

(** The [try] block, lines 75-79, in closed form: the code fragment is
    assigned before the proof markers are looked for. *)
Lemma extract_markers_eq (response : text) (st : state) :
  extract_markers response st =
  match between_markers CODE_START CODE_END response with
  | None => (Raise IndexError, st)
  | Some c =>
      match between_markers PROOF_START PROOF_END response with
      | None => (Raise IndexError, with_code c st)
      | Some p => (Ok tt, with_proof p (with_code c st))
      end
  end.
Proof.
  unfold extract_markers, between_markers, bind, index.
  rewrite (split_second _ CODE_START_ne), (split_second _ PROOF_START_ne).
  destruct (second_piece CODE_START response) as [a|]; [|reflexivity].
  cbn [ret]. rewrite split_first. cbn [ret set_code_snippet].
  destruct (second_piece PROOF_START response) as [b|]; [|reflexivity].
  cbn [ret]. rewrite split_first. reflexivity.
Qed.

(** The [except] block, lines 81-85, in closed form. *)
Lemma extract_fallback_eq (response : text) (st : state) :
  extract_fallback response st =
  match second_piece CODE_TOKEN response with
  | None => (Ok tt, st)
  | Some part =>
      match second_piece PROOF_TOKEN_NL part with
      | None =>
          (Raise IndexError, with_code (strip (before PROOF_TOKEN_NL part)) st)
      | Some piece =>
          (Ok tt, with_proof (strip piece)
                    (with_code (strip (before PROOF_TOKEN_NL part)) st))
      end
  end.
Proof.
  unfold extract_fallback.
  pose proof (split_second response CODE_TOKEN_ne) as H2.
  destruct (second_piece CODE_TOKEN response) as [part|] eqn:E.
  - assert (Hlen : Nat.ltb 1 (List.length (split CODE_TOKEN response)) = true).
    { apply Nat.ltb_lt. apply nth_error_Some. rewrite H2. discriminate. }
    rewrite Hlen. unfold bind, index. rewrite H2. cbn [ret].
    rewrite split_first. cbn [ret set_code_snippet].
    rewrite (split_second _ PROOF_TOKEN_NL_ne).
    destruct (second_piece PROOF_TOKEN_NL part); reflexivity.
  - assert (Hlen : Nat.ltb 1 (List.length (split CODE_TOKEN response)) = false).
    { apply Nat.ltb_ge. apply nth_error_None in H2. lia. }
    now rewrite Hlen.
Qed.

(** Lines 74-85 in closed form. *)
Lemma extract_fragments_eq (response : text) (st : state) :
  extract_fragments response st =
  match between_markers CODE_START CODE_END response with
  | None => extract_fallback response st
  | Some c =>
      match between_markers PROOF_START PROOF_END response with
      | None => extract_fallback response (with_code c st)
      | Some p => (Ok tt, with_proof p (with_code c st))
      end
  end.
Proof.
  unfold extract_fragments, try_except. rewrite extract_markers_eq.
  destruct (between_markers CODE_START CODE_END response); [|reflexivity].
  destruct (between_markers PROOF_START PROOF_END response); reflexivity.
Qed.

(** Extraction touches neither the trace nor the last error. *)
Lemma extract_fragments_frame (response : text) (st : state) :
  trace (snd (extract_fragments response st)) = trace st
  /\ last_error (vars (snd (extract_fragments response st)))
     = last_error (vars st).
Proof.
  rewrite extract_fragments_eq.
  destruct (between_markers CODE_START CODE_END response);
    [destruct (between_markers PROOF_START PROOF_END response)|];
    rewrite ?extract_fallback_eq;
    try destruct (second_piece CODE_TOKEN response) as [part|];
    try destruct (second_piece PROOF_TOKEN_NL part);
    split; reflexivity.
Qed.

(** Its outcome and the fragments it leaves depend on the state only
    through the two fragments. *)
Lemma extract_fragments_same (response : text) {st1 st2 : state} :
  same_fragments st1 st2 ->
  fst (extract_fragments response st1) = fst (extract_fragments response st2)
  /\ same_fragments (snd (extract_fragments response st1))
                    (snd (extract_fragments response st2)).
Proof.
  intros [Hc Hp]. unfold same_fragments.
  rewrite !extract_fragments_eq.
  destruct (between_markers CODE_START CODE_END response);
    [destruct (between_markers PROOF_START PROOF_END response)|];
    rewrite ?extract_fallback_eq;
    try destruct (second_piece CODE_TOKEN response) as [part|];
    try destruct (second_piece PROOF_TOKEN_NL part);
    simpl; auto.
Qed.

(** Every fragment the step assigns went through [strip()]. *)
Lemma extract_fragments_stripped (response : text) (st : state) :
  stripped (code_snippet (vars st)) ->
  stripped (proof_snippet (vars st)) ->
  stripped (code_snippet (vars (snd (extract_fragments response st))))
  /\ stripped (proof_snippet (vars (snd (extract_fragments response st)))).
Proof.
  intros Hc Hp. unfold stripped in *.
  rewrite extract_fragments_eq. unfold between_markers.
  destruct (second_piece CODE_START response);
    [destruct (second_piece PROOF_START response)|];
    rewrite ?extract_fallback_eq;
    try destruct (second_piece CODE_TOKEN response) as [part|];
    try destruct (second_piece PROOF_TOKEN_NL part);
    simpl; auto using strip_idem.
Qed.

End Extraction.

(* ================================================================== *)
(** ** Rounds and the loop *)
(* ================================================================== *)

Section Rounds.

Variable world : oracle.
Variables d t : text.

(** Lines 25-72 in closed form: both branches of the [if] are the same
    call-pause-call pattern on the agent and the messages of the round. *)
Lemma generate_eq (i : nat) (st : state) :
  generate world d t i st =
  let a := round_agent i in
  let msgs := round_messages d t i (vars st) in
  match get_response world (trace st) a msgs with
  | inl r => (Ok r, with_events [EvGetResponse a msgs (inl r)] st)
  | inr m1 =>
      let st1 :=
        with_events [EvSleep 5]
          (with_last_error m1
             (with_events [EvGetResponse a msgs (inr m1)] st)) in
      match get_response world (trace st1) a msgs with
      | inl r => (Ok r, with_events [EvGetResponse a msgs (inl r)] st1)
      | inr m2 =>
          (Raise (Error m2), with_events [EvGetResponse a msgs (inr m2)] st1)
      end
  end.
Proof.
  unfold generate, round_agent, round_messages.
  destruct (Nat.eqb i 0); cbn zeta;
    unfold bind, get_vars, try_except, call_get_response; cbn [vars trace];
    (destruct (get_response world (trace st) _ _) as [r|m1]; [reflexivity|]);
    cbn [is_Exception set_last_error time_sleep emit vars trace
         code_snippet proof_snippet last_error];
    unfold with_events, with_last_error; cbn [vars trace];
    destruct (get_response world _ _ _); reflexivity.
Qed.

Lemma round_sound (i : nat) (st : state) :
  round_run d t i st (fst (round world d t i st)) (snd (round world d t i st)).
Proof.
  assert (Hround : round world d t i st =
            match generate world d t i st with
            | (Ok r, st1) => (extract_fragments r ;; verify world t) st1
            | (Raise e, st1) => (Raise e, st1)
            end) by reflexivity.
  rewrite Hround, generate_eq. clear Hround. cbn zeta.
  set (a := round_agent i). set (msgs := round_messages d t i (vars st)).
  assert (Hstep : forall (g : list event) (r : text) (st1 : state),
             generated a msgs r g ->
             same_fragments st1 st -> trace st1 = trace st ++ g ->
             round_run d t i st
               (fst ((extract_fragments r ;; verify world t) st1))
               (snd ((extract_fragments r ;; verify world t) st1))).
  { intros g r st1 Hg Hsame Htr. unfold bind.
    destruct (extract_fragments_same r Hsame) as [Hout Hfr].
    destruct (extract_fragments_frame r st1) as [Htr1 _].
    destruct (extract_fragments r st1) as [[[]|e] st2] eqn:E; cbn [fst snd] in *.
    - unfold verify, bind, get_vars, call_execute_lean_code. cbn [vars trace].
      destruct (execute_lean_code world (trace st2) _) as [[|] stderr] eqn:V;
        cbn [fst snd set_last_error ret vars trace code_snippet proof_snippet].
      + match goal with
        | |- round_run _ _ _ _ _ ?s =>
            eapply round_verified with (g := g) (r := r) (st' := s)
        end; cbn [vars trace];
          [exact Hg | now symmetry | exact Hfr | ].
        rewrite Htr1, Htr, <- app_assoc. reflexivity.
      + match goal with
        | |- round_run _ _ _ _ _ ?s =>
            eapply round_rejected with (g := g) (r := r) (st' := s)
        end;
          cbn [vars trace code_snippet proof_snippet last_error];
          [exact Hg | now symmetry | exact Hfr | reflexivity | ].
        rewrite Htr1, Htr, <- app_assoc. reflexivity.
    - eapply round_extraction_raised; [exact Hg | now symmetry | ].
      now rewrite Htr1. }
  destruct (get_response world (trace st) a msgs) as [r|m1].
  - apply Hstep with (g := [EvGetResponse a msgs (inl r)]).
    + constructor.
    + split; reflexivity.
    + reflexivity.
  - match goal with
    | |- context [get_response world ?tr a msgs] =>
        destruct (get_response world tr a msgs) as [r|m2]
    end.
    + apply Hstep with
        (g := [EvGetResponse a msgs (inr m1); EvSleep 5;
               EvGetResponse a msgs (inl r)]).
      * constructor.
      * split; reflexivity.
      * cbn [with_events with_last_error vars trace].
        rewrite <- !app_assoc. reflexivity.
    + cbn [fst snd]. apply round_generation_failed with (m1 := m1).
      * split; reflexivity.
      * cbn [with_events with_last_error vars trace].
        rewrite <- !app_assoc. reflexivity.
Qed.

Lemma loop_sound (idxs : list nat) (st : state) :
  loop_run d t idxs st
    (fst (for_in idxs (round world d t) last_try_result st))
    (snd (for_in idxs (round world d t) last_try_result st)).
Proof.
  revert st. induction idxs as [|i rest IH]; intros st.
  - apply loop_exhausted.
  - cbn [for_in]. unfold bind.
    pose proof (round_sound i st) as Hr.
    destruct (round world d t i st) as [[[res|]|e] st1]; cbn [fst snd] in *.
    + apply loop_returned. exact Hr.
    + eapply loop_continued; [exact Hr | apply IH].
    + apply loop_raised. exact Hr.
Qed.

(** Every call of [main_workflow] is a run of the loop over rounds 0, 1, 2
    from empty fragments. *)
Lemma main_workflow_sound (st : state) :
  loop_run d t [0; 1; 2] (State (Locals [] [] []) (trace st))
    (fst (main_workflow world d t st))
    (snd (main_workflow world d t st)).
Proof.
  unfold main_workflow, bind, init_locals. apply loop_sound.
Qed.

End Rounds.

(* ================================================================== *)
(** ** Traces of the loop *)
(* ================================================================== *)

Ltac inv H := inversion H; subst; clear H.

Ltac splits := repeat match goal with |- _ /\ _ => split end.

Section Traces.

Lemma verdicts_app (a b : list event) :
  verdicts (a ++ b) = verdicts a ++ verdicts b.
Proof.
  induction a as [|[? ? ?| ? | ? [? ?] | ? ? | ?] a IH]; simpl; congruence.
Qed.

Lemma responses_app (a b : list event) :
  responses (a ++ b) = responses a ++ responses b.
Proof.
  induction a as [|[? ? [?|?]| ? | ? ? | ? ? | ?] a IH]; simpl; congruence.
Qed.

Lemma agents_called_app (a b : list event) :
  agents_called (a ++ b) = agents_called a ++ agents_called b.
Proof.
  induction a as [|[? ? ?| ? | ? ? | ? ? | ?] a IH]; simpl; congruence.
Qed.

Lemma generation_errors_app (a b : list event) :
  generation_errors (a ++ b) = generation_errors a ++ generation_errors b.
Proof.
  induction a as [|[? ? [?|?]| ? | ? ? | ? ? | ?] a IH]; simpl; congruence.
Qed.

Lemma documents_app (a b : list event) :
  documents (a ++ b) = documents a ++ documents b.
Proof.
  induction a as [|[? ? ?| ? | ? ? | ? ? | ?] a IH]; simpl; congruence.
Qed.

Lemma stdout_app (a b : list event) : stdout (a ++ b) = stdout a ++ stdout b.
Proof.
  induction a as [|[? ? ?| ? | ? ? | ? ? | ?] a IH]; simpl; try congruence.
  now rewrite IH, app_assoc.
Qed.

Lemma generated_views {a : agent} {msgs : list message} {r : text}
    {g : list event} :
  generated a msgs r g ->
  verdicts g = [] /\ documents g = [] /\ responses g = [r]
  /\ (generation_errors g = [] ->
      g = [EvGetResponse a msgs (inl r)] /\ agents_called g = [a]).
Proof.
  intros [|m]; simpl; repeat split; auto; discriminate.
Qed.

Lemma same_fragments_refl (st : state) : same_fragments st st.
Proof. split; reflexivity. Qed.

Lemma same_fragments_sym (a b : state) :
  same_fragments a b -> same_fragments b a.
Proof. intros [? ?]; split; congruence. Qed.

Lemma same_fragments_trans (a b c : state) :
  same_fragments a b -> same_fragments b c -> same_fragments a c.
Proof. intros [? ?] [? ?]; split; congruence. Qed.

Lemma fragments_after_same (rs : list text) (s1 s2 : state) :
  same_fragments s1 s2 ->
  same_fragments (fragments_after rs s1) (fragments_after rs s2).
Proof.
  revert s1 s2. induction rs as [|r rs IH]; intros s1 s2 H; simpl; [exact H|].
  apply IH. now apply extract_fragments_same.
Qed.

(** What any run of the loop looks like through the observers of its
    trace. *)
Lemma loop_run_shape {d t : text} {idxs : list nat} {st : state}
    {out : outcome LeanCode} {st' : state} :
  loop_run d t idxs st out st' ->
  exists rs errs ags,
    responses (trace st') = responses (trace st) ++ rs
    /\ generation_errors (trace st') = generation_errors (trace st) ++ errs
    /\ agents_called (trace st') = agents_called (trace st) ++ ags
    /\ (errs = [] -> ags = List.map round_agent (firstn (List.length rs) idxs))
    /\ List.length rs <= List.length idxs
    /\ match out with
       | Ok res =>
           same_fragments st' (fragments_after rs st)
           /\ ((verdicts (trace st')
                = verdicts (trace st)
                    ++ repeat false (pred (List.length rs)) ++ [true]
                /\ rs <> []
                /\ res = Result (code_snippet (vars st'))
                                (proof_snippet (vars st')))
               \/ (verdicts (trace st')
                   = verdicts (trace st) ++ repeat false (List.length idxs)
                   /\ List.length rs = List.length idxs
                   /\ res = Result
                              (or_else (code_snippet (vars st')) (lit "sorry"))
                              (or_else (proof_snippet (vars st')) (lit "sorry"))))
       | Raise e =>
           exists k, k < List.length idxs
             /\ verdicts (trace st')
                = verdicts (trace st) ++ repeat false k
       end.
Proof.
  induction 1 as [st | i rest st st' res Hr | i rest st st' e Hr
                  | i rest st st1 st' out Hr Hl IH].
  - exists [], [], []. rewrite !app_nil_r. simpl.
    splits; auto using same_fragments_refl.
  - inv Hr.
    match goal with Hg : generated _ _ _ _ |- _ =>
      destruct (generated_views Hg) as (Hv & _ & Hrs & Hag) end.
    exists [r], (generation_errors g), (agents_called g).
    match goal with Ht : trace _ = _ |- _ => rewrite Ht end.
    rewrite !responses_app, !generation_errors_app, !agents_called_app,
      !verdicts_app, Hv, Hrs. simpl. rewrite !app_nil_r.
    splits; auto; try lia.
    + intros He. now destruct (Hag He) as [_ ->].
    + left. splits; auto. discriminate.
  - inv Hr.
    + exists [], [m1; m2], [round_agent i; round_agent i].
      match goal with Ht : trace _ = _ |- _ => rewrite Ht end.
      rewrite !responses_app, !generation_errors_app, !agents_called_app,
        !verdicts_app. simpl. rewrite !app_nil_r.
      splits; auto; try discriminate; try lia.
      exists 0. split; [lia | now rewrite app_nil_r].
    + match goal with Hg : generated _ _ _ _ |- _ =>
        destruct (generated_views Hg) as (Hv & _ & Hrs & Hag) end.
      exists [r], (generation_errors g), (agents_called g).
      match goal with Ht : trace _ = _ |- _ => rewrite Ht end.
      rewrite !responses_app, !generation_errors_app, !agents_called_app,
        !verdicts_app, Hv, Hrs. simpl.
      splits; auto; try lia.
      * intros He. now destruct (Hag He) as [_ ->].
      * exists 0. split; [lia | now rewrite !app_nil_r].
  - destruct IH as (rs & errs & ags & Hrs' & Herr' & Hag' & Hags & Hlen & Hout).
    inv Hr.
    match goal with Hg : generated _ _ _ _ |- _ =>
      destruct (generated_views Hg) as (Hv & _ & Hrs & Hag) end.
    assert (Hvd1 : verdicts (trace st1) = verdicts (trace st) ++ [false]).
    { match goal with Ht : trace st1 = _ |- _ => rewrite Ht end.
      now rewrite !verdicts_app, Hv. }
    match goal with Ht : trace st1 = _ |- _ =>
      rewrite Ht in Hrs', Herr', Hag' end.
    rewrite !responses_app, !generation_errors_app, !agents_called_app,
      ?Hrs in *. simpl in Hrs', Herr', Hag'.
    rewrite ?app_nil_r in *.
    exists (r :: rs), (generation_errors g ++ errs), (agents_called g ++ ags).
    rewrite <- !app_assoc in *. simpl in *.
    splits; auto; try lia.
    + intros He. apply app_eq_nil in He as [He1 He2].
      destruct (Hag He1) as [_ ->]. now rewrite (Hags He2).
    + destruct out as [res|e].
      * destruct Hout as [Hsame Hcases]. split.
        { eapply same_fragments_trans; [exact Hsame|].
          now apply fragments_after_same. }
        destruct Hcases as [(Hvd & Hne & Hres) | (Hvd & Hl' & Hres)];
          rewrite Hvd1, <- app_assoc in Hvd; simpl in Hvd.
        { left. splits; auto; [|discriminate].
          rewrite Hvd. destruct rs; [congruence | reflexivity]. }
        { right. splits; auto. }
      * destruct Hout as (k & Hk & Hvd). exists (S k). split; [lia|].
        rewrite Hvd1, <- app_assoc in Hvd. exact Hvd.
Qed.

End Traces.

(* ================================================================== *)
(** ** Properties of the extraction step (C1, C2) *)
(* ================================================================== *)

Lemma between_markers_none (start_marker end_marker response : text) :
  between_markers start_marker end_marker response = None
  <-> contains start_marker response = false.
Proof.
  unfold between_markers. rewrite <- second_piece_contains.
  destruct (second_piece start_marker response); split; congruence.
Qed.

Lemma extract_markers_raises (response : text) (st : state) :
  fst (extract_markers response st) = Raise IndexError
  <-> (contains CODE_START response = false
       \/ contains PROOF_START response = false).
Proof.
  rewrite extract_markers_eq,
    <- (between_markers_none CODE_START CODE_END response),
    <- (between_markers_none PROOF_START PROOF_END response).
  destruct (between_markers CODE_START CODE_END response);
    destruct (between_markers PROOF_START PROOF_END response); simpl;
    (split; [intros H | intros [H|H]]); try discriminate; auto.
Qed.

(** C1 (the code departs from it).  The extraction step can raise: when the
    marker path fails (a start marker is missing), the response contains
    the token [{{code}}], and the text after that token does not contain
    [{{proof}}] followed by a newline, the fallback assigns the code
    fragment and then raises [IndexError] on its second index; nothing
    catches it, so the template-substitution step is not reached. *)
Theorem extraction_raises_without_proof_line (response part : text)
    (st : state) :
  contains CODE_START response = false
  \/ contains PROOF_START response = false ->
  second_piece CODE_TOKEN response = Some part ->
  contains PROOF_TOKEN_NL part = false ->
  fst (extract_fragments response st) = Raise IndexError.
Proof.
  intros Hm Hpart Hnl.
  apply second_piece_contains in Hnl.
  assert (Hfb : forall s, fst (extract_fallback response s) = Raise IndexError).
  { intros s. now rewrite extract_fallback_eq, Hpart, Hnl. }
  rewrite extract_fragments_eq.
  destruct (between_markers CODE_START CODE_END response) eqn:Ec;
    [|apply Hfb].
  destruct (between_markers PROOF_START PROOF_END response) eqn:Ep;
    [|apply Hfb].
  destruct Hm as [Hm|Hm].
  - apply (between_markers_none CODE_START CODE_END) in Hm. congruence.
  - apply (between_markers_none PROOF_START PROOF_END) in Hm. congruence.
Qed.

Lemma extraction_raises_without_proof_line_witness :
  fst (extract_fragments (lit "{{code}}x") start) = Raise IndexError.
Proof.
  apply (extraction_raises_without_proof_line (lit "{{code}}x") (lit "x") start).
  - left. reflexivity.
  - reflexivity.
  - reflexivity.
Defined.

(** The same input through the whole of [main_workflow]: the exception
    leaves the function after one agent call, and Lean is never run. *)
Example main_workflow_raises_IndexError (d t : text) :
  let world := scripted [inl (lit "{{code}}x")] [] [] in
  fst (run (main_workflow world d t)) = Raise IndexError
  /\ agents_called (trace (snd (run (main_workflow world d t)))) = [llm]
  /\ documents (trace (snd (run (main_workflow world d t)))) = [].
Proof. cbv zeta. repeat split. Qed.

(** C2, as stated, fails: with the code markers present and the proof
    markers absent, marker extraction fails, the fallback finds no
    [{{code}}] token, and yet the code fragment has changed. *)
Lemma fragments_change_when_nothing_recovered :
  let response := lit "-- << CODE START >>X-- << CODE END >>" in
  ~ (fst (extract_markers response start) = Raise IndexError ->
     contains CODE_TOKEN response = false ->
     code_snippet (vars (snd (extract_fragments response start)))
       = code_snippet (vars start)
     /\ proof_snippet (vars (snd (extract_fragments response start)))
       = proof_snippet (vars start)).
Proof.
  cbv zeta. intros H.
  destruct H as [H _]; [reflexivity | reflexivity | ].
  vm_compute in H. discriminate H.
Qed.

(** C2 (amended).  If, in some round, marker-based extraction fails and the
    response contains no [{{code}}] token for the fallback to split on, the
    step completes without raising, the proof fragment holds the value it
    held before the step, and the code fragment holds the value it held
    before the step when the response has no CODE START marker; when it
    has one (only the proof markers are missing), the code fragment is the
    stripped text that follows that marker. *)
Theorem fragments_when_nothing_recovered (response : text) (st : state) :
  fst (extract_markers response st) = Raise IndexError ->
  contains CODE_TOKEN response = false ->
  fst (extract_fragments response st) = Ok tt
  /\ proof_snippet (vars (snd (extract_fragments response st)))
     = proof_snippet (vars st)
  /\ (contains CODE_START response = false ->
      code_snippet (vars (snd (extract_fragments response st)))
      = code_snippet (vars st))
  /\ (forall c, between_markers CODE_START CODE_END response = Some c ->
      code_snippet (vars (snd (extract_fragments response st))) = c).
Proof.
  intros Hm Htok.
  apply extract_markers_raises in Hm.
  apply second_piece_contains in Htok.
  rewrite <- (between_markers_none CODE_START CODE_END response),
    <- (between_markers_none PROOF_START PROOF_END response) in Hm.
  rewrite <- (between_markers_none CODE_START CODE_END response).
  rewrite extract_fragments_eq.
  destruct (between_markers CODE_START CODE_END response) as [c|] eqn:Ec.
  - destruct (between_markers PROOF_START PROOF_END response) as [p|] eqn:Ep.
    + destruct Hm; discriminate.
    + rewrite extract_fallback_eq, Htok. simpl.
      repeat split; [discriminate | now intros ? [= ->]].
  - rewrite extract_fallback_eq, Htok. simpl.
    repeat split; discriminate.
Qed.

Lemma fragments_when_nothing_recovered_witness :
  let response := lit "-- << CODE START >> X -- << CODE END >> and no proof" in
  fst (extract_fragments response start) = Ok tt
  /\ proof_snippet (vars (snd (extract_fragments response start))) = []
  /\ code_snippet (vars (snd (extract_fragments response start))) = lit "X".
Proof.
  cbv zeta.
  destruct (fragments_when_nothing_recovered
              (lit "-- << CODE START >> X -- << CODE END >> and no proof")
              start) as (Hok & Hp & _ & Hc).
  - reflexivity.
  - reflexivity.
  - split; [exact Hok | split; [exact Hp | apply Hc; reflexivity]].
Defined.

(* ================================================================== *)
(** ** Properties of the substitution step (C3, C9) *)
(* ================================================================== *)

(** C3, as stated, fails: a template with two [{{code}}] tokens has both of
    them replaced, which is not what replacing each token at most once
    ([replace(old, new, 1)]) gives. *)
Lemma inject_replaces_twice :
  let template := lit "{{code}} {{code}}" in
  count CODE_TOKEN template = 2
  /\ inject template (lit "x") (lit "y") = lit "x x"
  /\ inject template (lit "x") (lit "y")
     <> replace_n 1 PROOF_TOKEN (lit "y")
          (replace_n 1 CODE_TOKEN (lit "x") template).
Proof.
  cbv zeta. split; [reflexivity | split; [reflexivity|]].
  vm_compute. discriminate.
Qed.

(** C3 (amended).  For every template text and every pair of extracted
    fragments, the substitution step replaces every occurrence of
    [{{code}}] in the template by the code fragment and then every
    occurrence of [{{proof}}] in the resulting text by the proof fragment
    (the filled document is the pieces between the tokens joined by the
    fragment); a token that occurs at most once is replaced at most once. *)
Theorem inject_replaces_every_occurrence (template c p : text) :
  inject template c p
  = join p (split PROOF_TOKEN (join c (split CODE_TOKEN template)))
  /\ (count CODE_TOKEN template <= 1 ->
      count PROOF_TOKEN (replace CODE_TOKEN c template) <= 1 ->
      inject template c p
      = replace_n 1 PROOF_TOKEN p (replace_n 1 CODE_TOKEN c template)).
Proof.
  unfold inject. split.
  - now rewrite !replace_join_split by discriminate.
  - intros Hc Hp.
    rewrite (replace_once PROOF_TOKEN p _ PROOF_TOKEN_ne Hp).
    now rewrite (replace_once CODE_TOKEN c template CODE_TOKEN_ne Hc).
Qed.

Lemma inject_replaces_every_occurrence_witness :
  inject (lit "theorem t := {{code}} {{proof}}") (lit "x") (lit "y")
  = lit "theorem t := x y".
Proof.
  destruct (inject_replaces_every_occurrence
              (lit "theorem t := {{code}} {{proof}}") (lit "x") (lit "y"))
    as [_ H].
  rewrite H.
  - reflexivity.
  - vm_compute. lia.
  - vm_compute. lia.
Defined.

Lemma PROOF_TOKEN_border_free : border_free PROOF_TOKEN.
Proof.
  intros k [Hk1 Hk2]. change (List.length PROOF_TOKEN) with 9 in *.
  do 9 (destruct k as [|k]; [try lia; vm_compute; discriminate|]).
  lia.
Qed.

(** C9.  The substitution replaces [{{code}}] first and [{{proof}}] second,
    on the same string: for every template that contains [{{code}}] and
    every code fragment that itself contains [{{proof}}], the filled
    document carries the proof fragment at the place of that token inside
    the code fragment. *)
Theorem inject_not_capture_avoiding (template c p before_code after_code
    code_head code_tail : text) :
  partition CODE_TOKEN template = Some (before_code, after_code) ->
  partition PROOF_TOKEN c = Some (code_head, code_tail) ->
  inject template c p
  = replace PROOF_TOKEN p (before_code ++ code_head)
      ++ p
      ++ replace PROOF_TOKEN p (code_tail ++ replace CODE_TOKEN c after_code).
Proof.
  intros Ht Hc. unfold inject.
  rewrite (replace_some c CODE_TOKEN_ne Ht).
  rewrite (partition_sound Hc) at 1.
  rewrite <- (replace_around PROOF_TOKEN p (before_code ++ code_head)
                (code_tail ++ replace CODE_TOKEN c after_code)
                PROOF_TOKEN_ne PROOF_TOKEN_border_free).
  now rewrite <- !app_assoc.
Qed.

Lemma inject_not_capture_avoiding_witness :
  inject (lit "def f := {{code}} -- {{proof}}") (lit "a {{proof}} b") (lit "P")
  = lit "def f := a P b -- P".
Proof.
  rewrite (inject_not_capture_avoiding
             (lit "def f := {{code}} -- {{proof}}") (lit "a {{proof}} b")
             (lit "P") (lit "def f := ") (lit " -- {{proof}}")
             (lit "a ") (lit " b")).
  - reflexivity.
  - reflexivity.
  - reflexivity.
Defined.

(* ================================================================== *)
(** ** Properties of whole runs (C4, C5, C6, C10) *)
(* ================================================================== *)

(** Every run from the empty history, through the observers of its trace. *)
Lemma run_shape (world : oracle) (d t : text) :
  let out := fst (run (main_workflow world d t)) in
  let st := snd (run (main_workflow world d t)) in
  exists rs,
    responses (trace st) = rs
    /\ (generation_errors (trace st) = [] ->
        agents_called (trace st)
        = List.map round_agent (firstn (List.length rs) [0; 1; 2]))
    /\ List.length rs <= 3
    /\ match out with
       | Ok res =>
           same_fragments st (extracted rs)
           /\ ((verdicts (trace st)
                = repeat false (pred (List.length rs)) ++ [true]
                /\ rs <> []
                /\ res = Result (code_snippet (vars st))
                                (proof_snippet (vars st)))
               \/ (verdicts (trace st) = [false; false; false]
                   /\ List.length rs = 3
                   /\ res = Result
                              (or_else (code_snippet (vars st)) (lit "sorry"))
                              (or_else (proof_snippet (vars st)) (lit "sorry"))))
       | Raise e =>
           exists k, k < 3 /\ verdicts (trace st) = repeat false k
       end.
Proof.
  cbv zeta. unfold run.
  destruct (loop_run_shape (main_workflow_sound world d t start))
    as (rs & errs & ags & Hrs & Herr & Hag & Hags & Hlen & Hout).
  simpl in Hrs, Herr, Hag, Hlen, Hout.
  exists rs. splits; auto.
  intros He. rewrite Hag. apply Hags. congruence.
Qed.

Lemma delimits_between {start_marker end_marker response x : text} :
  start_marker <> [] ->
  delimits start_marker end_marker response x ->
  between_markers start_marker end_marker response = Some (strip x).
Proof.
  intros Hs (pre & rest & post & Hp & He & Hnext).
  unfold between_markers, second_piece. rewrite Hp. do 2 f_equal.
  unfold before at 2.
  destruct (partition start_marker rest) as [[seg more]|] eqn:Hseg.
  - specialize (Hnext seg more eq_refl).
    pose proof (partition_sound Hseg) as E1.
    pose proof (partition_sound He) as E2.
    assert (Hpre : exists post', seg = x ++ end_marker ++ post').
    { rewrite E2, app_assoc in E1.
      apply app_eq_app in E1 as [l [[E3 E4] | [E3 E4]]].
      - pose proof (f_equal (@List.length _) E3) as El.
        rewrite !length_app in El.
        assert (l = []) by (destruct l; [reflexivity | simpl in El; lia]).
        subst l. exists []. rewrite app_nil_r in *. now symmetry.
      - exists l. now rewrite E3, <- app_assoc. }
    destruct Hpre as [post' ->].
    rewrite E2 in He. unfold before.
    now rewrite (partition_local _ _ _ post' He).
  - unfold before. now rewrite He.
Qed.

Lemma repeat_false_first (k : nat) :
  nth_error (repeat false k) 0 <> Some true.
Proof. destruct k; simpl; congruence. Qed.

(** C5.  If the first response obtained from the primary agent contains
    the paired markers (for code and for proof: the first start marker,
    then its end marker before any second start marker), [x] and [y] being
    the texts they delimit, and the first Lean run succeeds, then
    [main_workflow] returns after that single round with exactly [x] and
    [y] stripped of surrounding white space. *)
Theorem returns_marked_fragments_on_round_0 (world : oracle)
    (d t r0 x y : text) :
  let out := fst (run (main_workflow world d t)) in
  let st := snd (run (main_workflow world d t)) in
  nth_error (responses (trace st)) 0 = Some r0 ->
  delimits CODE_START CODE_END r0 x ->
  delimits PROOF_START PROOF_END r0 y ->
  nth_error (verdicts (trace st)) 0 = Some true ->
  out = Ok (Result (strip x) (strip y))
  /\ responses (trace st) = [r0]
  /\ verdicts (trace st) = [true].
Proof.
  cbv zeta. intros Hr0 Hx Hy Hv.
  destruct (run_shape world d t) as (rs & Hrs & _ & _ & Hout).
  cbv zeta in Hout.
  destruct (fst (run (main_workflow world d t))) as [res|e].
  - destruct Hout as [Hsame [(Hvd & Hne & Hres) | (Hvd & _ & _)]].
    + rewrite Hvd in Hv.
      destruct rs as [|r [|r' rs]]; [congruence | | simpl in Hv; congruence].
      rewrite Hrs in Hr0. simpl in Hr0. injection Hr0 as ->.
      rewrite Hvd, Hrs. splits; auto.
      destruct Hsame as [Hc Hp]. rewrite Hres, Hc, Hp.
      unfold extracted, fragments_after. simpl.
      rewrite extract_fragments_eq,
        (delimits_between CODE_START_ne Hx),
        (delimits_between PROOF_START_ne Hy).
      reflexivity.
    + rewrite Hvd in Hv. simpl in Hv. congruence.
  - destruct Hout as (k & _ & Hvd). rewrite Hvd in Hv.
    now apply repeat_false_first in Hv.
Qed.

Lemma returns_marked_fragments_on_round_0_witness :
  let r0 := lit "noise -- << CODE START >>impl-- << CODE END >>noise -- << PROOF START >>pf-- << PROOF END >>noise" in
  let world := scripted [inl r0] [(true, [])] [] in
  fst (run (main_workflow world (lit "task") (lit "theorem t := {{code}} {{proof}}")))
  = Ok (Result (lit "impl") (lit "pf")).
Proof.
  cbv zeta.
  apply (returns_marked_fragments_on_round_0
           (scripted
              [inl (lit "noise -- << CODE START >>impl-- << CODE END >>noise -- << PROOF START >>pf-- << PROOF END >>noise")]
              [(true, [])] [])
           (lit "task") (lit "theorem t := {{code}} {{proof}}")
           (lit "noise -- << CODE START >>impl-- << CODE END >>noise -- << PROOF START >>pf-- << PROOF END >>noise")
           (lit "impl") (lit "pf")).
  - reflexivity.
  - exists (lit "noise "),
      (lit "impl-- << CODE END >>noise -- << PROOF START >>pf-- << PROOF END >>noise"),
      (lit "noise -- << PROOF START >>pf-- << PROOF END >>noise").
    split; [reflexivity | split; [reflexivity|]].
    intros seg more H. vm_compute in H. discriminate H.
  - exists (lit "noise -- << CODE START >>impl-- << CODE END >>noise "),
      (lit "pf-- << PROOF END >>noise"), (lit "noise").
    split; [reflexivity | split; [reflexivity|]].
    intros seg more H. vm_compute in H. discriminate H.
  - reflexivity.
Defined.

(** C6.  If no generation call raises and verification fails on rounds 0
    and 1 but succeeds on round 2, then [main_workflow] performs exactly
    three generation invocations, one on the primary agent and then two on
    the refinement agent, and returns the fragments held after the
    extraction step of round 2. *)
Theorem three_rounds_then_success (world : oracle) (d t : text) :
  let out := fst (run (main_workflow world d t)) in
  let st := snd (run (main_workflow world d t)) in
  generation_errors (trace st) = [] ->
  verdicts (trace st) = [false; false; true] ->
  agents_called (trace st) = [llm; reasoner; reasoner]
  /\ exists r0 r1 r2,
       responses (trace st) = [r0; r1; r2]
       /\ out = Ok (Result (code_snippet (vars (extracted [r0; r1; r2])))
                           (proof_snippet (vars (extracted [r0; r1; r2])))).
Proof.
  cbv zeta. intros Herr Hv.
  destruct (run_shape world d t) as (rs & Hrs & Hag & Hlen & Hout).
  cbv zeta in Hout. specialize (Hag Herr).
  destruct (fst (run (main_workflow world d t))) as [res|e].
  - destruct Hout as [Hsame [(Hvd & Hne & Hres) | (Hvd & _ & _)]];
      [|congruence].
    rewrite Hvd in Hv.
    assert (Hl : List.length rs = 3).
    { apply (f_equal (@List.length _)) in Hv.
      rewrite length_app, repeat_length in Hv. simpl in Hv.
      destruct rs; [congruence | simpl in *; lia]. }
    destruct rs as [|r0 [|r1 [|r2 [|? ?]]]]; try discriminate Hl.
    split; [exact Hag|].
    exists r0, r1, r2. split; [exact Hrs|].
    destruct Hsame as [Hc Hp]. now rewrite Hres, Hc, Hp.
  - destruct Hout as (k & Hk & Hvd). rewrite Hvd in Hv.
    assert (Hin : In true (repeat false k)) by (rewrite Hv; simpl; auto).
    apply repeat_spec in Hin. discriminate.
Qed.

Lemma three_rounds_then_success_witness :
  let bad := lit "-- << CODE START >>a-- << CODE END >>-- << PROOF START >>b-- << PROOF END >>" in
  let good := lit "-- << CODE START >>x-- << CODE END >>-- << PROOF START >>y-- << PROOF END >>" in
  let world := scripted [inl bad; inl bad; inl good]
                 [(false, lit "error"); (false, lit "error"); (true, [])] [] in
  agents_called (trace (snd (run (main_workflow world (lit "task") (lit "{{code}} {{proof}}")))))
  = [llm; reasoner; reasoner]
  /\ fst (run (main_workflow world (lit "task") (lit "{{code}} {{proof}}")))
     = Ok (Result (lit "x") (lit "y")).
Proof.
  cbv zeta.
  destruct (three_rounds_then_success
              (scripted
                 [inl (lit "-- << CODE START >>a-- << CODE END >>-- << PROOF START >>b-- << PROOF END >>");
                  inl (lit "-- << CODE START >>a-- << CODE END >>-- << PROOF START >>b-- << PROOF END >>");
                  inl (lit "-- << CODE START >>x-- << CODE END >>-- << PROOF START >>y-- << PROOF END >>")]
                 [(false, lit "error"); (false, lit "error"); (true, [])] [])
              (lit "task") (lit "{{code}} {{proof}}"))
    as (Hag & r0 & r1 & r2 & Hrs & Hout).
  - reflexivity.
  - reflexivity.
  - split; [exact Hag | reflexivity].
Defined.

Lemma assigns_code_false (response : text) (st : state) :
  assigns_code response = false ->
  code_snippet (vars (snd (extract_fragments response st)))
  = code_snippet (vars st).
Proof.
  unfold assigns_code. intros H. apply orb_false_iff in H as [H1 H2].
  apply (between_markers_none CODE_START CODE_END) in H1.
  apply second_piece_contains in H2.
  now rewrite extract_fragments_eq, H1, extract_fallback_eq, H2.
Qed.

Lemma assigns_proof_false (response : text) (st : state) :
  assigns_proof response = false ->
  proof_snippet (vars (snd (extract_fragments response st)))
  = proof_snippet (vars st).
Proof.
  unfold assigns_proof. intros H. apply orb_false_iff in H as [H1 H2].
  apply second_piece_contains in H2.
  rewrite extract_fragments_eq.
  destruct (between_markers CODE_START CODE_END response) as [c|] eqn:Ec.
  - destruct (between_markers PROOF_START PROOF_END response) as [p|] eqn:Ep.
    + exfalso. apply andb_false_iff in H1 as [H1|H1].
      * apply (between_markers_none CODE_START CODE_END) in H1. congruence.
      * apply (between_markers_none PROOF_START PROOF_END) in H1. congruence.
    + now rewrite extract_fallback_eq, H2.
  - now rewrite extract_fallback_eq, H2.
Qed.

Lemma or_else_sorry (s : text) :
  or_else s (lit "sorry") = lit "sorry" <-> s = [] \/ s = lit "sorry".
Proof.
  destruct s as [|c s]; simpl.
  - split; auto.
  - split; [auto | intros [H|H]; [discriminate | exact H]].
Qed.

(** C4, as stated, fails: a response whose code markers enclose nothing is
    extracted successfully in every round, and yet the code returned after
    three failed verifications is the literal [sorry]. *)
Lemma sorry_for_an_extracted_fragment :
  let response :=
    lit "-- << CODE START >>-- << CODE END >>-- << PROOF START >>p-- << PROOF END >>" in
  let world :=
    scripted [inl response; inl response; inl response]
      [(false, lit "e"); (false, lit "e"); (false, lit "e")] [] in
  let out := run (main_workflow world (lit "task") (lit "{{code}} {{proof}}")) in
  verdicts (trace (snd out)) = [false; false; false]
  /\ fst out = Ok (Result (lit "sorry") (lit "p"))
  /\ fst (extract_markers response start) = Ok tt
  /\ ~ (forall r, In r (responses (trace (snd out))) ->
          assigns_code r = false).
Proof.
  cbv zeta. split; [reflexivity | split; [reflexivity | split; [reflexivity|]]].
  intros H.
  match type of H with
  | forall r, In r ?l -> _ =>
      assert (Hl : l = [lit "-- << CODE START >>-- << CODE END >>-- << PROOF START >>p-- << PROOF END >>";
                        lit "-- << CODE START >>-- << CODE END >>-- << PROOF START >>p-- << PROOF END >>";
                        lit "-- << CODE START >>-- << CODE END >>-- << PROOF START >>p-- << PROOF END >>"])
        by (vm_compute; reflexivity);
      rewrite Hl in H
  end.
  specialize (H _ (or_introl eq_refl)).
  vm_compute in H. discriminate H.
Qed.

(** C4 (amended).  If verification never succeeds across the three rounds,
    [main_workflow] returns, for each of code and proof, the fragment held
    after the extraction step of the third round when that fragment is
    not empty, and the literal [sorry] when it is empty: [sorry] is
    returned exactly when the fragment is empty (or is that very text).
    The fragment is empty when no round assigned it (never extracted); it
    is also empty when the last extraction that assigned it found only
    white space. *)
Theorem exhausted_rounds_result (world : oracle) (d t : text) :
  let out := fst (run (main_workflow world d t)) in
  let st := snd (run (main_workflow world d t)) in
  verdicts (trace st) = [false; false; false] ->
  exists r0 r1 r2,
    responses (trace st) = [r0; r1; r2]
    /\ out = Ok (Result
                   (or_else (code_snippet (vars (extracted [r0; r1; r2])))
                            (lit "sorry"))
                   (or_else (proof_snippet (vars (extracted [r0; r1; r2])))
                            (lit "sorry")))
    /\ (forall res, out = Ok res ->
          (code res = lit "sorry" <->
             code_snippet (vars (extracted [r0; r1; r2])) = []
             \/ code_snippet (vars (extracted [r0; r1; r2])) = lit "sorry")
          /\ (proof res = lit "sorry" <->
                proof_snippet (vars (extracted [r0; r1; r2])) = []
                \/ proof_snippet (vars (extracted [r0; r1; r2])) = lit "sorry"))
    /\ (assigns_code r0 = false -> assigns_code r1 = false ->
        assigns_code r2 = false ->
        code_snippet (vars (extracted [r0; r1; r2])) = [])
    /\ (assigns_proof r0 = false -> assigns_proof r1 = false ->
        assigns_proof r2 = false ->
        proof_snippet (vars (extracted [r0; r1; r2])) = []).
Proof.
  cbv zeta. intros Hv.
  destruct (run_shape world d t) as (rs & Hrs & _ & Hlen & Hout).
  cbv zeta in Hout.
  destruct (fst (run (main_workflow world d t))) as [res|e].
  - destruct Hout as [Hsame [(Hvd & _ & _) | (_ & Hl & Hres)]].
    + exfalso. rewrite Hvd in Hv.
      apply (f_equal (@rev bool)) in Hv. rewrite rev_app_distr in Hv.
      simpl in Hv. discriminate Hv.
    + destruct rs as [|r0 [|r1 [|r2 [|? ?]]]]; try discriminate Hl.
      exists r0, r1, r2. destruct Hsame as [Hc Hp].
      split; [exact Hrs|]. split; [now rewrite Hres, Hc, Hp|].
      split.
      { intros res' [= <-]. rewrite Hres, Hc, Hp. simpl.
        split; apply or_else_sorry. }
      unfold extracted, fragments_after. simpl. split.
      * intros H0 H1 H2. now rewrite !assigns_code_false.
      * intros H0 H1 H2. now rewrite !assigns_proof_false.
  - exfalso. destruct Hout as (k & Hk & Hvd). rewrite Hvd in Hv.
    apply (f_equal (@List.length _)) in Hv. rewrite repeat_length in Hv.
    simpl in Hv. lia.
Qed.

Lemma exhausted_rounds_result_witness :
  let world :=
    scripted [inl (lit "no markers"); inl (lit "none"); inl (lit "nothing")]
      [(false, lit "e"); (false, lit "e"); (false, lit "e")] [] in
  fst (run (main_workflow world (lit "task") (lit "{{code}} {{proof}}")))
  = Ok (Result (lit "sorry") (lit "sorry")).
Proof.
  cbv zeta.
  destruct (exhausted_rounds_result
              (scripted
                 [inl (lit "no markers"); inl (lit "none"); inl (lit "nothing")]
                 [(false, lit "e"); (false, lit "e"); (false, lit "e")] [])
              (lit "task") (lit "{{code}} {{proof}}"))
    as (r0 & r1 & r2 & Hrs & Hout & _).
  - reflexivity.
  - vm_compute in Hrs. injection Hrs as <- <- <-.
    rewrite Hout. vm_compute. reflexivity.
Defined.

(** The fragments stay stripped along any run of the loop. *)
Lemma loop_run_stripped {d t : text} {idxs : list nat} {st : state}
    {out : outcome LeanCode} {st' : state} :
  loop_run d t idxs st out st' ->
  stripped (code_snippet (vars st)) -> stripped (proof_snippet (vars st)) ->
  forall res, out = Ok res -> stripped (code res) /\ stripped (proof res).
Proof.
  induction 1 as [st | i rest st st' res0 Hr | i rest st st' e Hr
                  | i rest st st1 st' out Hr Hl IH];
    intros Hc Hp res Hres.
  - injection Hres as <-. simpl. unfold stripped in *.
    destruct (code_snippet (vars st)), (proof_snippet (vars st));
      simpl; auto.
  - injection Hres as <-. inv Hr.
    match goal with Hs : same_fragments _ _ |- _ => destruct Hs as [-> ->] end.
    simpl. now apply extract_fragments_stripped.
  - discriminate.
  - inv Hr.
    match goal with Hs : same_fragments _ _ |- _ => destruct Hs as [Hc1 Hp1] end.
    apply IH; [rewrite Hc1 | rewrite Hp1 | reflexivity];
      now apply extract_fragments_stripped.
Qed.

(** C10.  Whenever a call of [main_workflow] returns, both values of the
    returned mapping equal their own white-space trim. *)
Theorem result_is_stripped (world : oracle) (d t : text) (st st' : state)
    (res : LeanCode) :
  main_workflow world d t st = (Ok res, st') ->
  strip (code res) = code res /\ strip (proof res) = proof res.
Proof.
  intros H. pose proof (main_workflow_sound world d t st) as Hl.
  rewrite H in Hl. simpl in Hl.
  exact (loop_run_stripped Hl eq_refl eq_refl res eq_refl).
Qed.

Lemma result_is_stripped_witness :
  strip (lit "impl") = lit "impl" /\ strip (lit "pf") = lit "pf".
Proof.
  apply (result_is_stripped
           (scripted
              [inl (lit "-- << CODE START >>  impl
-- << CODE END >>-- << PROOF START >> pf  -- << PROOF END >>")]
              [(true, [])] [])
           (lit "task") (lit "{{code}} {{proof}}") start
           (snd (run (main_workflow
                   (scripted
                      [inl (lit "-- << CODE START >>  impl
-- << CODE END >>-- << PROOF START >> pf  -- << PROOF END >>")]
                      [(true, [])] [])
                   (lit "task") (lit "{{code}} {{proof}}"))))
           (Result (lit "impl") (lit "pf"))).
  reflexivity.
Defined.

(* ================================================================== *)
(** ** The retry discipline (C7) *)
(* ================================================================== *)

(** Walk along a trace of known shape looking for a displayed event. *)
Ltac walk H :=
  match type of H with
  | [] = ?pre ++ _ :: _ => destruct pre; discriminate H
  | _ :: _ = ?pre ++ _ :: _ =>
      destruct pre as [|? pre]; simpl in H;
      [ inversion H; subst; clear H
      | let Hh := fresh "H" in
        let H' := fresh "H" in
        injection H as Hh H'; try rewrite <- Hh in *; clear Hh; walk H' ]
  end.

Lemma retries_settled_nil : retries_settled [].
Proof. intros pre a msgs m post H. walk H. Qed.

Lemma retries_settled_lean (doc : text) (answer : bool * text) :
  retries_settled [EvExecuteLean doc answer].
Proof. intros pre a msgs m post H. walk H. Qed.

Lemma retries_settled_generated (a : agent) (msgs : list message) (r : text)
    (g : list event) :
  generated a msgs r g -> retries_settled g.
Proof.
  intros [|m0] pre a' msgs' m post H; walk H.
  exists r, []. reflexivity.
Qed.

Lemma retries_settled_app (tr1 tr2 : list event) :
  retries_settled tr1 -> retries_settled tr2 -> retries_settled (tr1 ++ tr2).
Proof.
  intros H1 H2 pre a msgs m post E.
  apply app_eq_app in E as [l [[E1 E2] | [E1 E2]]].
  - destruct l as [|x l]; simpl in E2.
    + destruct (H2 [] a msgs m post) as (r & post' & Hp);
        [now rewrite <- E2 | eauto].
    + injection E2 as <- ->.
      destruct (H1 _ _ _ _ _ E1) as (r & post' & ->).
      exists r, (post' ++ tr2). reflexivity.
  - destruct (H2 _ _ _ _ _ E2) as (r & post' & ->). eauto.
Qed.

Lemma settled_discipline {A} (tr : list event) (out : outcome A) :
  retries_settled tr -> retry_discipline tr out.
Proof.
  intros H pre a msgs m post E.
  destruct (H _ _ _ _ _ E) as (r & post' & ->).
  left. exists (inl r), post'. split; [reflexivity | discriminate].
Qed.

Lemma discipline_app {A} (tr1 tr2 : list event) (out : outcome A) :
  retries_settled tr1 -> retry_discipline tr2 out ->
  retry_discipline (tr1 ++ tr2) out.
Proof.
  intros H1 H2 pre a msgs m post E.
  assert (Hin2 : forall l, tr2 = l ++ EvGetResponse a msgs (inr m) :: post ->
            pre = tr1 ++ l ->
            (exists answer post',
                post = EvSleep 5 :: EvGetResponse a msgs answer :: post'
                /\ (forall m2, answer = inr m2 ->
                      post' = [] /\ out = Raise (Error m2)))
            \/ (post = [] /\ out = Raise (Error m)
                /\ exists pre' m1,
                     pre = pre' ++ [EvGetResponse a msgs (inr m1); EvSleep 5])).
  { intros l El Ep.
    destruct (H2 _ _ _ _ _ El) as [Hfirst | (Hp & Ho & pre' & m1 & Hpre)].
    - left. exact Hfirst.
    - right. split; [exact Hp|]. split; [exact Ho|].
      exists (tr1 ++ pre'), m1. now rewrite Ep, Hpre, app_assoc. }
  apply app_eq_app in E as [l [[E1 E2] | [E1 E2]]].
  - destruct l as [|x l]; simpl in E2.
    + apply (Hin2 []); [now rewrite <- E2 | now rewrite E1, !app_nil_r].
    + injection E2 as <- ->.
      destruct (H1 _ _ _ _ _ E1) as (r & post' & ->).
      left. exists (inl r), (post' ++ tr2). split; [reflexivity | discriminate].
  - now apply (Hin2 l).
Qed.

Lemma discipline_generation_failed {A} (a : agent) (msgs : list message)
    (m1 m2 : text) :
  @retry_discipline A
    [EvGetResponse a msgs (inr m1); EvSleep 5; EvGetResponse a msgs (inr m2)]
    (Raise (Error m2)).
Proof.
  intros pre a' msgs' m post H. walk H.
  - left. exists (inr m2), []. split; [reflexivity|].
    intros ? [= <-]. auto.
  - right. split; [reflexivity|]. split; [reflexivity|].
    exists [], m1. reflexivity.
Qed.

Lemma loop_run_discipline {d t : text} {idxs : list nat} {st : state}
    {out : outcome LeanCode} {st' : state} :
  loop_run d t idxs st out st' ->
  exists delta,
    trace st' = trace st ++ delta /\ retry_discipline delta out.
Proof.
  induction 1 as [st | i rest st st' res Hr | i rest st st' e Hr
                  | i rest st st1 st' out Hr Hl IH].
  - exists []. split; [now rewrite app_nil_r|].
    apply settled_discipline, retries_settled_nil.
  - inv Hr. eexists. split; [eassumption|].
    apply settled_discipline, retries_settled_app;
      [eapply retries_settled_generated; eassumption
      | apply retries_settled_lean].
  - inv Hr.
    + eexists. split; [eassumption|]. apply discipline_generation_failed.
    + eexists. split; [eassumption|].
      eapply settled_discipline, retries_settled_generated; eassumption.
  - destruct IH as (delta & Htr & Hd). inv Hr.
    match goal with Ht : trace st1 = _ |- _ => rewrite Ht in Htr end.
    eexists. split; [rewrite Htr, <- app_assoc; reflexivity|].
    apply discipline_app; [|exact Hd].
    apply retries_settled_app;
      [eapply retries_settled_generated; eassumption
      | apply retries_settled_lean].
Qed.

(** C7.  In any round, every agent call that raises is a first attempt
    followed by a pause of 5 and exactly one second call of the same agent
    with the same messages, and when that second call raises too it is the
    last thing that happens: its error is the outcome of [main_workflow]. *)
Theorem generation_failure_retried_once (world : oracle) (d t : text) :
  retry_discipline (trace (snd (run (main_workflow world d t))))
                   (fst (run (main_workflow world d t))).
Proof.
  destruct (loop_run_discipline (main_workflow_sound world d t start))
    as (delta & Htr & Hd).
  unfold run. simpl in Htr. rewrite Htr. exact Hd.
Qed.

(** Two runs that exercise it: a failure followed by a successful second
    call, and two failures in a row in round 1. *)
Example retry_then_success :
  let world :=
    scripted
      [inr (lit "timeout");
       inl (lit "-- << CODE START >>x-- << CODE END >>-- << PROOF START >>y-- << PROOF END >>")]
      [(true, [])] [] in
  let out := run (main_workflow world (lit "task") (lit "{{code}} {{proof}}")) in
  fst out = Ok (Result (lit "x") (lit "y"))
  /\ agents_called (trace (snd out)) = [llm; llm]
  /\ generation_errors (trace (snd out)) = [lit "timeout"]
  /\ nth_error (trace (snd out)) 1 = Some (EvSleep 5).
Proof. vm_compute. repeat split. Qed.

Example retry_fails_in_round_1 :
  let world :=
    scripted [inl (lit "no markers"); inr (lit "first"); inr (lit "second")]
      [(false, lit "error")] [] in
  let out := run (main_workflow world (lit "task") (lit "{{code}} {{proof}}")) in
  fst out = Raise (Error (lit "second"))
  /\ agents_called (trace (snd out)) = [llm; reasoner; reasoner]
  /\ verdicts (trace (snd out)) = [false].
Proof. vm_compute. repeat split. Qed.

Lemma generation_failure_retried_once_witness :
  let world :=
    scripted
      [inr (lit "timeout");
       inl (lit "-- << CODE START >>x-- << CODE END >>-- << PROOF START >>y-- << PROOF END >>")]
      [(true, [])] [] in
  let out := run (main_workflow world (lit "task") (lit "{{code}} {{proof}}")) in
  exists answer post',
    tl (trace (snd out))
    = EvSleep 5
        :: EvGetResponse llm
             (first_messages (lit "task") (lit "{{code}} {{proof}}")) answer
        :: post'.
Proof.
  cbv zeta.
  set (world :=
    scripted
      [inr (lit "timeout");
       inl (lit "-- << CODE START >>x-- << CODE END >>-- << PROOF START >>y-- << PROOF END >>")]
      [(true, [])] []).
  set (out := run (main_workflow world (lit "task") (lit "{{code}} {{proof}}"))).
  destruct (generation_failure_retried_once world (lit "task")
              (lit "{{code}} {{proof}}") []
              llm (first_messages (lit "task") (lit "{{code}} {{proof}}"))
              (lit "timeout") (tl (trace (snd out))))
    as [(answer & post' & Hpost & _) | (Hpost & _)].
  - vm_compute. reflexivity.
  - exists answer, post'. exact Hpost.
  - vm_compute in Hpost. discriminate Hpost.
Defined.

(* ================================================================== *)
(** ** The command-line entry point (C8) *)
(* ================================================================== *)

(** C8.  With [sys.argv] of any length other than 2 (the script name and
    one task directory), the entry point prints the usage line and exits
    with status 1 and does nothing else; with exactly one task-directory
    argument, once the two task files are read and [main_workflow] returns
    a result, it prints the code fragment and then the proof fragment of
    that result to standard output, each under its banner. *)
Theorem script_main_behaviour (world : oracle) (argv : list text)
    (st : state) :
  (List.length argv <> 2 ->
   script_main world argv st
   = (Raise (SystemExit 1),
      State (vars st) (trace st ++ [EvPrint (usage ++ newline)])))
  /\ (forall prog task_dir desc tmpl st1 result st2,
        argv = [prog; task_dir] ->
        get_problem_and_code_from_taskpath world task_dir st
        = (Ok (desc, tmpl), st1) ->
        main_workflow world desc tmpl st1 = (Ok result, st2) ->
        script_main world argv st
        = (Ok tt,
           State (vars st2)
             (trace st2 ++
                [EvPrint (CODE_BANNER ++ lit " " ++ code result ++ newline);
                 EvPrint (PROOF_BANNER ++ lit " " ++ proof result ++ newline)]))).
Proof.
  split.
  - intros Hlen. unfold script_main.
    destruct (Nat.eqb_spec (List.length argv) 2) as [E|_]; [contradiction|].
    reflexivity.
  - intros prog task_dir desc tmpl st1 result st2 -> Hread Hrun.
    unfold script_main. cbn [List.length Nat.eqb negb].
    unfold bind at 1. cbn [index nth_error ret].
    unfold bind at 1. rewrite Hread.
    unfold bind at 1. rewrite Hrun.
    unfold bind, print2, emit. cbn [vars trace].
    now rewrite <- app_assoc.
Qed.

Lemma script_main_behaviour_witness :
  let world :=
    scripted
      [inl (lit "-- << CODE START >>x-- << CODE END >>-- << PROOF START >>y-- << PROOF END >>")]
      [(true, [])]
      [(lit "tasks/task_id_0/description.txt", lit "add two numbers");
       (lit "tasks/task_id_0/task.lean", lit "{{code}} {{proof}}")] in
  fst (run (script_main world [lit "src/main.py"])) = Raise (SystemExit 1)
  /\ stdout (trace (snd (run (script_main world [lit "src/main.py"]))))
     = usage ++ newline
  /\ fst (run (script_main world [lit "src/main.py"; lit "tasks/task_id_0"]))
     = Ok tt
  /\ stdout (trace (snd (run (script_main world
                                [lit "src/main.py"; lit "tasks/task_id_0"]))))
     = CODE_BANNER ++ lit " x" ++ newline ++ PROOF_BANNER ++ lit " y" ++ newline.
Proof.
  cbv zeta.
  set (world :=
    scripted
      [inl (lit "-- << CODE START >>x-- << CODE END >>-- << PROOF START >>y-- << PROOF END >>")]
      [(true, [])]
      [(lit "tasks/task_id_0/description.txt", lit "add two numbers");
       (lit "tasks/task_id_0/task.lean", lit "{{code}} {{proof}}")]).
  destruct (script_main_behaviour world [lit "src/main.py"] start)
    as [Husage _].
  destruct (script_main_behaviour world
              [lit "src/main.py"; lit "tasks/task_id_0"] start)
    as [_ Hprint].
  unfold run.
  rewrite Husage by (simpl; lia).
  rewrite (Hprint (lit "src/main.py") (lit "tasks/task_id_0")
             (lit "add two numbers") (lit "{{code}} {{proof}}")
             (snd (get_problem_and_code_from_taskpath world
                     (lit "tasks/task_id_0") start))
             (Result (lit "x") (lit "y"))
             (snd (main_workflow world (lit "add two numbers")
                     (lit "{{code}} {{proof}}")
                     (snd (get_problem_and_code_from_taskpath world
                             (lit "tasks/task_id_0") start))))
             eq_refl);
    [ | vm_compute; reflexivity | vm_compute; reflexivity ].
  vm_compute. repeat split.
Defined.

(* ================================================================== *)
(** ** More on stripping, extraction and substitution *)
(* ================================================================== *)

Lemma lstrip_head (s : text) :
  lstrip s = [] \/ isspace (hd 0%N (lstrip s)) = false.
Proof.
  induction s as [|c s IH]; simpl; [now left|].
  destruct (isspace c) eqn:E; [exact IH | right; exact E].
Qed.

Lemma rstrip_last (s : text) :
  rstrip s = [] \/ isspace (last (rstrip s) 0%N) = false.
Proof.
  induction s as [|c s IH]; simpl; [now left|].
  destruct (rstrip s) as [|x r] eqn:E.
  - destruct (isspace c) eqn:Ec; [now left | right; exact Ec].
  - right. destruct IH as [IH|IH]; [discriminate | exact IH].
Qed.

Lemma rstrip_keeps_head (c : char) (s : text) :
  isspace c = false -> exists r, rstrip (c :: s) = c :: r.
Proof.
  intros Hc. simpl. destruct (rstrip s) as [|x r].
  - rewrite Hc. now exists [].
  - now exists (x :: r).
Qed.

Lemma lstrip_fixed (s : text) :
  s = [] \/ isspace (hd 0%N s) = false -> lstrip s = s.
Proof.
  intros [->|H]; [reflexivity|].
  destruct s as [|c s]; [reflexivity|]. simpl in *. now rewrite H.
Qed.

Lemma rstrip_fixed (s : text) :
  s = [] \/ isspace (last s 0%N) = false -> rstrip s = s.
Proof.
  induction s as [|c s IH]; [reflexivity|].
  intros [H|H]; [discriminate|].
  destruct s as [|x s].
  - simpl in *. now rewrite H.
  - change (rstrip (c :: x :: s))
      with (match rstrip (x :: s) with
            | [] => if isspace c then [] else [c]
            | y :: r' => c :: y :: r'
            end).
    rewrite IH; [reflexivity|]. right. exact H.
Qed.

Lemma strip_outer (s : text) :
  strip s = []
  \/ (isspace (hd 0%N (strip s)) = false
      /\ isspace (last (strip s) 0%N) = false).
Proof.
  unfold strip. destruct (lstrip_head s) as [E|Hh].
  - left. now rewrite E.
  - destruct (lstrip s) as [|x l]; [now left|]. right.
    simpl in Hh. destruct (rstrip_keeps_head x l Hh) as [r Er]. split.
    + rewrite Er. exact Hh.
    + destruct (rstrip_last (x :: l)) as [E|Hl]; [congruence | exact Hl].
Qed.

(** What [strip()] guarantees, and so what C10's fixed points are: a text
    equals its own strip exactly when it is empty or neither begins nor
    ends with a white-space character. *)
Theorem stripped_iff_no_outer_space (s : text) :
  strip s = s
  <-> s = [] \/ (isspace (hd 0%N s) = false /\ isspace (last s 0%N) = false).
Proof.
  split.
  - intros H. pose proof (strip_outer s) as Ho. now rewrite H in Ho.
  - intros [->|[Hh Hl]]; [reflexivity|].
    unfold strip. rewrite lstrip_fixed by now right.
    apply rstrip_fixed. now right.
Qed.

Lemma stripped_iff_no_outer_space_witness :
  isspace (hd 0%N (strip (lit "  x y  "))) = false
  /\ isspace (last (strip (lit "  x y  ")) 0%N) = false.
Proof.
  destruct (proj1 (stripped_iff_no_outer_space (strip (lit "  x y  "))))
    as [H|H].
  - apply strip_idem.
  - vm_compute in H. discriminate H.
  - exact H.
Defined.

(** *** Extraction, lines 74-85 *)

Lemma extract_fallback_raise (response : text) (st : state) (e : exn) :
  fst (extract_fallback response st) = Raise e -> e = IndexError.
Proof.
  rewrite extract_fallback_eq.
  destruct (second_piece CODE_TOKEN response) as [part|]; [|discriminate].
  destruct (second_piece PROOF_TOKEN_NL part); [discriminate|].
  now intros [= <-].
Qed.

Lemma extract_fragments_raise (response : text) (st : state) (e : exn) :
  fst (extract_fragments response st) = Raise e -> e = IndexError.
Proof.
  rewrite extract_fragments_eq.
  destruct (between_markers CODE_START CODE_END response);
    [destruct (between_markers PROOF_START PROOF_END response)|];
    try discriminate; apply extract_fallback_raise.
Qed.

(** The extraction step raises in exactly one situation, and then with
    [IndexError]: a start marker is missing, the response contains
    [{{code}}], and the text after that token (up to a second [{{code}}])
    has no [{{proof}}] followed by a newline.  In every other case it
    completes. *)
Theorem extraction_raises_iff (response : text) (st : state) :
  (exists e, fst (extract_fragments response st) = Raise e)
  <-> ((contains CODE_START response = false
        \/ contains PROOF_START response = false)
       /\ exists part, second_piece CODE_TOKEN response = Some part
                       /\ contains PROOF_TOKEN_NL part = false).
Proof.
  rewrite <- (between_markers_none CODE_START CODE_END response),
    <- (between_markers_none PROOF_START PROOF_END response).
  rewrite extract_fragments_eq.
  assert (Hfb : forall s,
             (exists e, fst (extract_fallback response s) = Raise e)
             <-> exists part, second_piece CODE_TOKEN response = Some part
                              /\ contains PROOF_TOKEN_NL part = false).
  { intros s. rewrite extract_fallback_eq.
    destruct (second_piece CODE_TOKEN response) as [part|].
    - destruct (second_piece PROOF_TOKEN_NL part) as [piece|] eqn:E.
      + split; [intros [e He]; discriminate He|].
        intros (part' & [= <-] & Hc).
        apply second_piece_contains in Hc. congruence.
      + split; [|intros _; now exists IndexError].
        intros _. exists part. split; [reflexivity|].
        now apply second_piece_contains.
    - split; [intros [e He]; discriminate He | intros (? & H & _); discriminate H]. }
  destruct (between_markers CODE_START CODE_END response) as [c|].
  - destruct (between_markers PROOF_START PROOF_END response) as [p|].
    + split; [intros [e He]; discriminate He|].
      intros [[H|H] _]; discriminate H.
    + rewrite Hfb. split; [intros H; split; [now right | exact H] | now intros [_ H]].
  - rewrite Hfb. split; [intros H; split; [now left | exact H] | now intros [_ H]].
Qed.

Lemma extraction_raises_iff_witness :
  exists e, fst (extract_fragments (lit "see {{code}} def f := 1") start) = Raise e.
Proof.
  apply (proj2 (extraction_raises_iff (lit "see {{code}} def f := 1") start)).
  split.
  - left. reflexivity.
  - exists (lit " def f := 1"). split; reflexivity.
Defined.

(** Only the start markers are required.  When both are present the step
    completes on the marker path whatever else the response contains, the
    fallback is not consulted, and both fragments are replaced by texts
    that depend on the response alone, whatever they were before. *)
Theorem start_markers_suffice (response : text) :
  contains CODE_START response = true ->
  contains PROOF_START response = true ->
  exists c p,
    forall st,
      extract_fragments response st
      = (Ok tt, State (Locals c p (last_error (vars st))) (trace st)).
Proof.
  intros Hc Hp.
  destruct (between_markers CODE_START CODE_END response) as [c|] eqn:Ec.
  - destruct (between_markers PROOF_START PROOF_END response) as [p|] eqn:Ep.
    + exists c, p. intros st. now rewrite extract_fragments_eq, Ec, Ep.
    + apply between_markers_none in Ep. congruence.
  - apply between_markers_none in Ec. congruence.
Qed.

Lemma start_markers_suffice_witness :
  exists c p,
    extract_fragments
      (lit "{{code}} -- << PROOF START >> p -- << CODE START >> c")
      (State (Locals (lit "old") (lit "old") (lit "err")) [])
    = (Ok tt, State (Locals c p (lit "err")) []).
Proof.
  destruct (start_markers_suffice
              (lit "{{code}} -- << PROOF START >> p -- << CODE START >> c"))
    as (c & p & H).
  - reflexivity.
  - reflexivity.
  - exists c, p. apply H.
Defined.

(** A missing end marker is not an error: with no CODE END marker (and no
    second CODE START marker) after the first CODE START marker, the code
    fragment is everything that follows that marker, to the end of the
    response, the proof block included. *)
Theorem missing_end_marker_takes_the_rest (response pre rest : text)
    (st : state) :
  partition CODE_START response = Some (pre, rest) ->
  contains CODE_START rest = false ->
  contains CODE_END rest = false ->
  contains PROOF_START response = true ->
  fst (extract_fragments response st) = Ok tt
  /\ code_snippet (vars (snd (extract_fragments response st))) = strip rest.
Proof.
  intros Hp Hs He Hps.
  assert (Hc : between_markers CODE_START CODE_END response
               = Some (strip rest)).
  { unfold between_markers, second_piece. rewrite Hp.
    unfold contains in Hs, He. unfold before.
    destruct (partition CODE_START rest); [discriminate|].
    destruct (partition CODE_END rest); [discriminate|]. reflexivity. }
  rewrite extract_fragments_eq, Hc.
  destruct (between_markers PROOF_START PROOF_END response) as [p|] eqn:Ep.
  - split; reflexivity.
  - apply between_markers_none in Ep. congruence.
Qed.

Lemma missing_end_marker_takes_the_rest_witness :
  code_snippet
    (vars (snd (extract_fragments
                  (lit "-- << CODE START >> c -- << PROOF START >> p -- << PROOF END >>")
                  start)))
  = lit "c -- << PROOF START >> p -- << PROOF END >>".
Proof.
  destruct (missing_end_marker_takes_the_rest
              (lit "-- << CODE START >> c -- << PROOF START >> p -- << PROOF END >>")
              [] (lit " c -- << PROOF START >> p -- << PROOF END >>") start)
    as [_ H].
  - reflexivity.
  - reflexivity.
  - reflexivity.
  - reflexivity.
  - rewrite H. reflexivity.
Defined.

(** The fallback: with no CODE START marker, a response of the shape
    [... {{code}} c {{proof}}\n p], with no further token in [c] and [p],
    yields [c] and [p], stripped. *)
Theorem fallback_recovers_both (response pre rest c p : text) (st : state) :
  contains CODE_START response = false ->
  partition CODE_TOKEN response = Some (pre, rest) ->
  contains CODE_TOKEN rest = false ->
  partition PROOF_TOKEN_NL rest = Some (c, p) ->
  contains PROOF_TOKEN_NL p = false ->
  extract_fragments response st
  = (Ok tt, State (Locals (strip c) (strip p) (last_error (vars st)))
              (trace st)).
Proof.
  intros Hm Hc Hc' Hp Hp'.
  apply (between_markers_none CODE_START CODE_END) in Hm.
  rewrite extract_fragments_eq, Hm, extract_fallback_eq.
  unfold second_piece, before, contains in *.
  rewrite Hc.
  destruct (partition CODE_TOKEN rest); [discriminate|].
  rewrite Hp.
  destruct (partition PROOF_TOKEN_NL p); [discriminate|]. reflexivity.
Qed.

Lemma fallback_recovers_both_witness :
  extract_fragments
    (lit "Here: {{code}} IMPL {{proof}}" ++ newline ++ lit " PF ") start
  = (Ok tt, State (Locals (lit "IMPL") (lit "PF") []) []).
Proof.
  apply (fallback_recovers_both
           (lit "Here: {{code}} IMPL {{proof}}" ++ newline ++ lit " PF ")
           (lit "Here: ") (lit " IMPL {{proof}}" ++ newline ++ lit " PF ")
           (lit " IMPL ") (lit " PF ") start); reflexivity.
Defined.

(** *** Substitution, lines 88-92 *)


Lemma CODE_TOKEN_border_free : border_free CODE_TOKEN.
Proof.
  intros k [Hk1 Hk2]. change (List.length CODE_TOKEN) with 8 in *.
  do 8 (destruct k as [|k]; [try lia; vm_compute; discriminate|]).
  lia.
Qed.

(** A template without placeholders is submitted as it is, whatever the
    fragments. *)
Theorem inject_without_placeholders (template c p : text) :
  contains CODE_TOKEN template = false ->
  contains PROOF_TOKEN template = false ->
  inject template c p = template.
Proof.
  unfold contains, inject. intros Hc Hp.
  destruct (partition CODE_TOKEN template) eqn:Ec; [discriminate|].
  destruct (partition PROOF_TOKEN template) eqn:Ep; [discriminate|].
  now rewrite (replace_none Ec), (replace_none Ep).
Qed.

Lemma inject_without_placeholders_witness :
  inject (lit "theorem t : True := trivial") (lit "x") (lit "y")
  = lit "theorem t : True := trivial".
Proof.
  apply (inject_without_placeholders (lit "theorem t : True := trivial")
           (lit "x") (lit "y")); reflexivity.
Defined.

(** The regular case: a template with one [{{code}}] followed by one
    [{{proof}}], and a code fragment that brings no [{{proof}}] with it,
    is filled by exact replacement; the proof fragment is inserted as it
    is, whatever it contains. *)
Theorem inject_exactly (a b c code_fragment proof_fragment : text) :
  contains CODE_TOKEN a = false ->
  contains CODE_TOKEN (b ++ PROOF_TOKEN ++ c) = false ->
  contains PROOF_TOKEN (a ++ code_fragment ++ b) = false ->
  contains PROOF_TOKEN c = false ->
  inject (a ++ CODE_TOKEN ++ b ++ PROOF_TOKEN ++ c)
         code_fragment proof_fragment
  = a ++ code_fragment ++ b ++ proof_fragment ++ c.
Proof.
  unfold contains. intros Ha Hb Hab Hc.
  destruct (partition CODE_TOKEN a) eqn:Ea; [discriminate|].
  destruct (partition CODE_TOKEN (b ++ PROOF_TOKEN ++ c)) eqn:Eb;
    [discriminate|].
  destruct (partition PROOF_TOKEN (a ++ code_fragment ++ b)) eqn:Eab;
    [discriminate|].
  destruct (partition PROOF_TOKEN c) eqn:Ec; [discriminate|].
  unfold inject.
  rewrite (replace_some code_fragment CODE_TOKEN_ne
             (partition_border_free (b ++ PROOF_TOKEN ++ c)
                CODE_TOKEN_border_free Ea)).
  rewrite (replace_none Eb).
  assert (E : a ++ code_fragment ++ b ++ PROOF_TOKEN ++ c
              = (a ++ code_fragment ++ b) ++ PROOF_TOKEN ++ c)
    by now rewrite <- !app_assoc.
  rewrite E.
  rewrite (replace_some proof_fragment PROOF_TOKEN_ne
             (partition_border_free c PROOF_TOKEN_border_free Eab)).
  rewrite (replace_none Ec). now rewrite <- !app_assoc.
Qed.

Lemma inject_exactly_witness :
  inject (lit "def f := {{code}}" ++ newline ++ lit "theorem t := by {{proof}}")
    (lit "fun x => x") (lit "simp [{{code}}]")
  = lit "def f := fun x => x" ++ newline ++ lit "theorem t := by simp [{{code}}]".
Proof.
  apply (inject_exactly (lit "def f := ") (newline ++ lit "theorem t := by ") []
           (lit "fun x => x") (lit "simp [{{code}}]")); reflexivity.
Defined.


(* ================================================================== *)
(** ** More on whole runs of [main_workflow] *)
(* ================================================================== *)

Lemma sleeps_app (a b : list event) : sleeps (a ++ b) = sleeps a ++ sleeps b.
Proof.
  induction a as [|[? ? ?| ? | ? ? | ? ? | ?] a IH]; simpl; congruence.
Qed.

Lemma files_opened_app (a b : list event) :
  files_opened (a ++ b) = files_opened a ++ files_opened b.
Proof.
  induction a as [|[? ? ?| ? | ? ? | ? ? | ?] a IH]; simpl; congruence.
Qed.

(** The effects of a generation step that obtains a response. *)
Lemma generated_effects {a : agent} {msgs : list message} {r : text}
    {g : list event} :
  generated a msgs r g ->
  stdout g = [] /\ files_opened g = []
  /\ (exists k, agents_called g = repeat a k /\ 1 <= k <= 2)
  /\ List.length (sleeps g) <= 1 /\ Forall (eq 5%N) (sleeps g)
  /\ List.length g <= 3.
Proof.
  intros [|m]; simpl; splits; auto; try lia.
  - exists 1. split; [reflexivity | lia].
  - exists 2. split; [reflexivity | lia].
Qed.

(** What a run of the loop can do to the outside world, and how much. *)
Lemma loop_run_effects {d t : text} {idxs : list nat} {st : state}
    {out : outcome LeanCode} {st' : state} :
  loop_run d t idxs st out st' ->
  exists delta,
    trace st' = trace st ++ delta
    /\ stdout delta = [] /\ files_opened delta = []
    /\ List.length (verdicts delta) <= List.length idxs
    /\ List.length (agents_called delta) <= 2 * List.length idxs
    /\ List.length (sleeps delta) <= List.length idxs
    /\ Forall (eq 5%N) (sleeps delta)
    /\ List.length delta <= 4 * List.length idxs.
Proof.
  induction 1 as [st | i rest st st' res Hr | i rest st st' e Hr
                  | i rest st st1 st' out Hr Hl IH].
  - exists []. rewrite app_nil_r. simpl. splits; auto.
  - inv Hr.
    match goal with Hg : generated _ _ _ _ |- _ =>
      destruct (generated_views Hg) as (Hv & _ & _ & _);
      destruct (generated_effects Hg)
        as (Ho & Hf & (k & Hk & Hk2) & Hs & Hs5 & Hlen) end.
    eexists. split; [eassumption|].
    rewrite !stdout_app, !files_opened_app, !verdicts_app, !agents_called_app,
      !sleeps_app, !length_app, Ho, Hf, Hv, Hk, repeat_length.
    simpl. rewrite !app_nil_r. splits; auto; lia.
  - inv Hr.
    + eexists. split; [eassumption|]. simpl. splits; auto; lia.
    + match goal with Hg : generated _ _ _ _ |- _ =>
        destruct (generated_views Hg) as (Hv & _ & _ & _);
        destruct (generated_effects Hg)
          as (Ho & Hf & (k & Hk & Hk2) & Hs & Hs5 & Hlen) end.
      eexists. split; [eassumption|].
      rewrite Ho, Hf, Hv, Hk, repeat_length. simpl. splits; auto; lia.
  - destruct IH as (delta & Htr & Ho' & Hf' & Hv' & Ha' & Hs' & Hs5' & Hl').
    inv Hr.
    match goal with Hg : generated _ _ _ _ |- _ =>
      destruct (generated_views Hg) as (Hv & _ & _ & _);
      destruct (generated_effects Hg)
        as (Ho & Hf & (k & Hk & Hk2) & Hs & Hs5 & Hlen) end.
    match goal with Ht : trace st1 = _ |- _ => rewrite Ht in Htr end.
    eexists. split; [rewrite Htr, <- app_assoc; reflexivity|].
    rewrite !stdout_app, !files_opened_app, !verdicts_app, !agents_called_app,
      !sleeps_app, !length_app, Ho, Hf, Hv, Hk, repeat_length, Ho', Hf'.
    simpl. rewrite !app_nil_r.
    splits; auto; try lia.
    apply Forall_app. split; assumption.
Qed.

(** Bounded effort, and no other effect.  Whatever the agents and Lean
    answer, a call of [main_workflow] runs Lean at most 3 times, pauses at
    most 3 times and each time for 5, makes at most 12 requests in all, and
    neither prints anything nor opens any file. *)
Theorem main_workflow_effects (world : oracle) (d t : text) (st : state) :
  exists delta,
    trace (snd (main_workflow world d t st)) = trace st ++ delta
    /\ List.length (verdicts delta) <= 3
    /\ List.length (sleeps delta) <= 3
    /\ Forall (eq 5%N) (sleeps delta)
    /\ List.length delta <= 12
    /\ stdout delta = []
    /\ files_opened delta = [].
Proof.
  destruct (loop_run_effects (main_workflow_sound world d t st))
    as (delta & Htr & Ho & Hf & Hv & _ & Hs & Hs5 & Hl).
  exists delta. simpl in *. splits; auto.
Qed.

(** The bounds are reached: three rounds in which the first call fails. *)
Example twelve_requests :
  let response := lit "nothing useful" in
  let world :=
    scripted [inr (lit "e"); inl response; inr (lit "e"); inl response;
              inr (lit "e"); inl response]
      [(false, lit "x"); (false, lit "x"); (false, lit "x")] [] in
  let tr := trace (snd (run (main_workflow world (lit "task") (lit "T")))) in
  List.length tr = 12 /\ sleeps tr = [5; 5; 5]%N
  /\ agents_called tr = [llm; llm; reasoner; reasoner; reasoner; reasoner].
Proof. vm_compute. repeat split. Qed.

Lemma extract_outcome_any_state (response : text) (s1 s2 : state) (e : exn) :
  fst (extract_fragments response s1) = Raise e ->
  fst (extract_fragments response s2) = Raise IndexError.
Proof.
  rewrite !extract_fragments_eq.
  destruct (between_markers CODE_START CODE_END response);
    [destruct (between_markers PROOF_START PROOF_END response)|];
    try discriminate;
    rewrite !extract_fallback_eq;
    destruct (second_piece CODE_TOKEN response) as [part|]; try discriminate;
    destruct (second_piece PROOF_TOKEN_NL part); try discriminate;
    reflexivity.
Qed.

Lemma loop_run_raises {d t : text} {idxs : list nat} {st : state}
    {out : outcome LeanCode} {st' : state} :
  loop_run d t idxs st out st' ->
  forall e, out = Raise e ->
    (exists tr a msgs m1 m2,
        e = Error m2
        /\ trace st' = tr ++ [EvGetResponse a msgs (inr m1); EvSleep 5;
                              EvGetResponse a msgs (inr m2)])
    \/ (exists tr a msgs r,
          e = IndexError
          /\ trace st' = tr ++ [EvGetResponse a msgs (inl r)]
          /\ forall s, fst (extract_fragments r s) = Raise IndexError).
Proof.
  induction 1 as [st | i rest st st' res Hr | i rest st st' e0 Hr
                  | i rest st st1 st' out Hr Hl IH]; intros e He.
  - discriminate.
  - discriminate.
  - injection He as ->. inv Hr.
    + left. exists (trace st). eauto 10.
    + right.
      match goal with Hx : fst (extract_fragments _ _) = Raise _ |- _ =>
        pose proof (extract_outcome_any_state _ _ st _ Hx) as Hi;
        rewrite Hx in Hi; injection Hi as ->;
        pose proof (fun s => extract_outcome_any_state _ _ s _ Hx) as Hall end.
      match goal with Hg : generated _ _ _ _ |- _ => destruct Hg as [|m] end.
      * exists (trace st). eauto 10.
      * exists (trace st ++ [EvGetResponse (round_agent i)
                               (round_messages d t i (vars st)) (inr m);
                             EvSleep 5]).
        do 3 eexists. split; [reflexivity|]. split; [|exact Hall].
        match goal with Ht : trace st' = _ |- _ => rewrite Ht end.
        now rewrite <- app_assoc.
  - now apply IH.
Qed.

(** The exceptions a caller can see.  When [main_workflow] raises, either
    an agent failed twice in a row with the same messages and the error is
    that of the second failure, or the last response made the extraction
    fallback raise [IndexError]; in both cases that was the last thing
    that happened.  In particular it never raises [SystemExit]. *)
Theorem main_workflow_raises_only (world : oracle) (d t : text)
    (st st' : state) (e : exn) :
  main_workflow world d t st = (Raise e, st') ->
  (exists tr a msgs m1 m2,
      e = Error m2
      /\ trace st' = tr ++ [EvGetResponse a msgs (inr m1); EvSleep 5;
                            EvGetResponse a msgs (inr m2)])
  \/ (exists tr a msgs r,
        e = IndexError
        /\ trace st' = tr ++ [EvGetResponse a msgs (inl r)]
        /\ forall s, fst (extract_fragments r s) = Raise IndexError).
Proof.
  intros H. pose proof (main_workflow_sound world d t st) as Hl.
  rewrite H in Hl. simpl in Hl. exact (loop_run_raises Hl e eq_refl).
Qed.

Lemma main_workflow_raises_only_witness :
  exists tr a msgs m1,
    trace (snd (run (main_workflow
                       (scripted [inl (lit "none"); inr (lit "first");
                                  inr (lit "second")]
                          [(false, lit "error")] [])
                       (lit "task") (lit "T"))))
    = tr ++ [EvGetResponse a msgs (inr m1); EvSleep 5;
             EvGetResponse a msgs (inr (lit "second"))].
Proof.
  destruct (main_workflow_raises_only
              (scripted [inl (lit "none"); inr (lit "first");
                         inr (lit "second")]
                 [(false, lit "error")] [])
              (lit "task") (lit "T") start
              (snd (run (main_workflow
                           (scripted [inl (lit "none"); inr (lit "first");
                                      inr (lit "second")]
                              [(false, lit "error")] [])
                           (lit "task") (lit "T"))))
              (Error (lit "second")))
    as [(tr & a & msgs & m1 & m2 & He & Htr)
       | (tr & a & msgs & r & He & _)].
  - vm_compute. reflexivity.
  - injection He as <-. exists tr, a, msgs, m1. exact Htr.
  - discriminate He.
Defined.

Lemma loop_run_returns {d t : text} {idxs : list nat} {st : state}
    {out : outcome LeanCode} {st' : state} :
  loop_run d t idxs st out st' ->
  forall res, out = Ok res ->
    (exists tr stderr,
        trace st'
        = tr ++ [EvExecuteLean (inject t (code res) (proof res)) (true, stderr)]
        /\ res = Result (code_snippet (vars st')) (proof_snippet (vars st')))
    \/ (exists delta,
          trace st' = trace st ++ delta
          /\ verdicts delta = repeat false (List.length idxs)
          /\ res = Result (or_else (code_snippet (vars st')) (lit "sorry"))
                          (or_else (proof_snippet (vars st')) (lit "sorry"))).
Proof.
  induction 1 as [st | i rest st st' res0 Hr | i rest st st' e0 Hr
                  | i rest st st1 st' out Hr Hl IH]; intros res Hres.
  - injection Hres as <-. right. exists []. now rewrite app_nil_r.
  - injection Hres as <-. inv Hr. left.
    exists (trace st ++ g), stderr. simpl. split; [|reflexivity].
    match goal with Ht : trace st' = _ |- _ => rewrite Ht end.
    now rewrite <- app_assoc.
  - discriminate.
  - destruct (IH res Hres) as [Hleft | (delta & Htr & Hv & Hr')];
      [left; exact Hleft|].
    right. inv Hr.
    match goal with Hg : generated _ _ _ _ |- _ =>
      destruct (generated_views Hg) as (Hvg & _ & _ & _) end.
    match goal with Ht : trace st1 = _ |- _ => rewrite Ht in Htr end.
    eexists. split; [rewrite Htr, <- app_assoc; reflexivity|].
    split; [|reflexivity].
    now rewrite !verdicts_app, Hvg, Hv.
Qed.

(** What is returned was what was verified.  When [main_workflow] returns,
    either the last thing it did was a successful Lean run on the template
    filled with exactly the returned code and proof (which are then the
    fragments as extracted, empty ones included, never replaced by
    [sorry]), or Lean was run three times and failed each time. *)
Theorem returned_fragments_were_verified (world : oracle) (d t : text)
    (st st' : state) (res : LeanCode) :
  main_workflow world d t st = (Ok res, st') ->
  (exists tr stderr,
      trace st'
      = tr ++ [EvExecuteLean (inject t (code res) (proof res)) (true, stderr)]
      /\ res = Result (code_snippet (vars st')) (proof_snippet (vars st')))
  \/ (exists delta,
        trace st' = trace st ++ delta
        /\ verdicts delta = [false; false; false]
        /\ res = Result (or_else (code_snippet (vars st')) (lit "sorry"))
                        (or_else (proof_snippet (vars st')) (lit "sorry"))).
Proof.
  intros H. pose proof (main_workflow_sound world d t st) as Hl.
  rewrite H in Hl. simpl in Hl.
  exact (loop_run_returns Hl res eq_refl).
Qed.

Lemma returned_fragments_were_verified_witness :
  exists tr stderr,
    trace (snd (run (main_workflow
                       (scripted [inl (lit "no markers at all")]
                          [(true, [])] [])
                       (lit "task") (lit "a {{code}} b {{proof}} c"))))
    = tr ++ [EvExecuteLean (lit "a  b  c") (true, stderr)].
Proof.
  destruct (returned_fragments_were_verified
              (scripted [inl (lit "no markers at all")] [(true, [])] [])
              (lit "task") (lit "a {{code}} b {{proof}} c") start
              (snd (run (main_workflow
                           (scripted [inl (lit "no markers at all")]
                              [(true, [])] [])
                           (lit "task") (lit "a {{code}} b {{proof}} c"))))
              (Result [] []))
    as [(tr & stderr & Htr & _) | (delta & Htr & Hv & _)].
  - vm_compute. reflexivity.
  - exists tr, stderr. rewrite Htr. reflexivity.
  - simpl in Htr. rewrite <- Htr in Hv. vm_compute in Hv. discriminate Hv.
Defined.

(* ================================================================== *)
(** ** Which agent is asked, and with what *)
(* ================================================================== *)

(** Where two adjacent events of a concatenation can lie. *)
Lemma pair_in_app {A} (tr1 tr2 pre post : list A) (x y : A) :
  tr1 ++ tr2 = pre ++ x :: y :: post ->
  (exists post1, tr1 = pre ++ x :: y :: post1)
  \/ (tr1 = pre ++ [x] /\ tr2 = y :: post)
  \/ (exists pre2, pre = tr1 ++ pre2 /\ tr2 = pre2 ++ x :: y :: post).
Proof.
  intros E. apply app_eq_app in E as [l [[E1 E2] | [E1 E2]]].
  - destruct l as [|x' [|y' l]]; simpl in E2.
    + right. right. exists []. rewrite app_nil_r in *. auto.
    + injection E2 as <- <-. right. left. auto.
    + injection E2 as <- <- ->. left. now exists l.
  - right. right. now exists l.
Qed.

Lemma round_agent_later (i : nat) : i <> 0 -> round_agent i = reasoner.
Proof. destruct i; [congruence | reflexivity]. Qed.

Lemma round_messages_later (d t : text) (i : nat) (v : locals) :
  i <> 0 -> round_messages d t i v = refine_messages d t v.
Proof. destruct i; [congruence | reflexivity]. Qed.

(** A generation step begins with a call of the agent of the round, and
    contains no Lean run. *)
Lemma generated_starts {a : agent} {msgs : list message} {r : text}
    {g : list event} :
  generated a msgs r g ->
  exists ans tl', g = EvGetResponse a msgs ans :: tl'.
Proof. intros [|m]; eauto. Qed.

Lemma no_lean_then_call_in_round {a : agent} {msgs : list message} {r : text}
    {g : list event} (doc : text) (v : bool * text) :
  generated a msgs r g ->
  forall pre doc' v' a' msgs' ans post,
    g ++ [EvExecuteLean doc v]
    <> pre ++ EvExecuteLean doc' v' :: EvGetResponse a' msgs' ans :: post.
Proof.
  intros [|m] pre doc' v' a' msgs' ans post H; simpl in H; walk H.
Qed.

Lemma no_lean_in_generated {a : agent} {msgs : list message} {r : text}
    {g : list event} :
  generated a msgs r g ->
  forall pre doc' v' post, g <> pre ++ EvExecuteLean doc' v' :: post.
Proof. intros [|m] pre doc' v' post H; walk H. Qed.

(** Along a run of the loop whose later rounds are refinement rounds:
    the first event is the call of the first round, and a call that
    directly follows a Lean run is a refinement call built from the
    fragments of that run and from its error output. *)
Lemma loop_run_prompts {d t : text} {idxs : list nat} {st : state}
    {out : outcome LeanCode} {st' : state} :
  loop_run d t idxs st out st' ->
  Forall (fun i => i <> 0) (tl idxs) ->
  exists delta,
    trace st' = trace st ++ delta
    /\ (delta = []
        \/ exists i rest ans tl',
             idxs = i :: rest
             /\ delta = EvGetResponse (round_agent i)
                          (round_messages d t i (vars st)) ans :: tl')
    /\ (forall pre doc verdict a msgs ans post,
          delta = pre ++ EvExecuteLean doc verdict
                    :: EvGetResponse a msgs ans :: post ->
          a = reasoner
          /\ exists v,
               verdict = (false, last_error v)
               /\ doc = inject t (code_snippet v) (proof_snippet v)
               /\ msgs = refine_messages d t v).
Proof.
  induction 1 as [st | i rest st st' res Hr | i rest st st' e Hr
                  | i rest st st1 st' out Hr Hl IH]; intros Hnz.
  - exists []. rewrite app_nil_r. split; [reflexivity|]. split; [now left|].
    intros pre ? ? ? ? ? ? E. destruct pre; discriminate E.
  - inv Hr.
    match goal with Hg : generated _ _ _ _ |- _ =>
      destruct (generated_starts Hg) as (ans0 & tl0 & Eg);
      pose proof (no_lean_then_call_in_round
                    (inject t (code_snippet (vars st'))
                       (proof_snippet (vars st'))) (true, stderr) Hg) as Hno
    end.
    eexists. split; [eassumption|]. split.
    + right. exists i, rest, ans0, (tl0 ++ [EvExecuteLean
              (inject t (code_snippet (vars st')) (proof_snippet (vars st')))
              (true, stderr)]).
      split; [reflexivity|]. now rewrite Eg.
    + intros pre doc verdict a msgs ans post Hpos. now apply Hno in Hpos.
  - inv Hr.
    + eexists. split; [eassumption|]. split.
      * right. do 4 eexists. split; reflexivity.
      * intros pre doc verdict a msgs ans post Hpos. walk Hpos.
    + match goal with Hg : generated _ _ _ _ |- _ =>
        destruct (generated_starts Hg) as (ans0 & tl0 & Eg);
        pose proof (no_lean_in_generated Hg) as Hno end.
      eexists. split; [eassumption|]. split.
      * right. exists i, rest, ans0, tl0. split; [reflexivity | exact Eg].
      * intros pre doc verdict a msgs ans post Hpos. now apply Hno in Hpos.
  - simpl in Hnz.
    assert (Hnz' : Forall (fun i => i <> 0) (tl rest)).
    { destruct rest; [constructor | now inversion Hnz]. }
    destruct (IH Hnz') as (delta & Htr & Hhd & Hadj).
    inv Hr.
    match goal with Hg : generated _ _ _ _ |- _ =>
      destruct (generated_starts Hg) as (ans0 & tl0 & Eg);
      pose proof (no_lean_then_call_in_round
                    (inject t (code_snippet (vars st1))
                       (proof_snippet (vars st1)))
                    (false, last_error (vars st1)) Hg) as Hno
    end.
    match goal with Ht : trace st1 = _ |- _ => rewrite Ht in Htr end.
    exists ((g ++ [EvExecuteLean
                     (inject t (code_snippet (vars st1))
                        (proof_snippet (vars st1)))
                     (false, last_error (vars st1))]) ++ delta).
    split; [now rewrite Htr, <- !app_assoc|]. split.
    + right. exists i, rest, ans0.
      eexists. split; [reflexivity|]. rewrite Eg. reflexivity.
    + intros pre doc verdict a msgs ans post Hpos.
      apply pair_in_app in Hpos
        as [(post1 & Hpos) | [(Hb1 & Hb2) | (pre2 & _ & Hpos)]].
      * now apply Hno in Hpos.
      * apply app_inj_tail in Hb1 as [_ [= <- <-]].
        destruct Hhd as [-> | (i' & rest' & ans' & tl' & -> & ->)];
          [discriminate Hb2|].
        injection Hb2 as <- <- _ _.
        inversion Hnz as [|? ? Hi' _]; subst.
        split; [now apply round_agent_later|].
        exists (vars st1). split; [reflexivity|]. split; [reflexivity|].
        now apply round_messages_later.
      * now apply Hadj in Hpos.
Qed.

(** The refinement prompt.  In any run, an agent call that directly
    follows a Lean run is a call of the refinement agent; that Lean run
    had failed, and the messages of the call are the refinement messages
    built from the description, the template, the two fragments that were
    in the document Lean rejected, and the error output of that run (not
    the message of any earlier agent failure). *)
Theorem refinement_prompt_carries_last_lean_error (world : oracle)
    (d t : text) (st : state) :
  forall pre doc verdict a msgs ans post,
    trace (snd (main_workflow world d t st))
    = trace st ++ pre ++ EvExecuteLean doc verdict
        :: EvGetResponse a msgs ans :: post ->
    a = reasoner
    /\ exists c p stderr,
         verdict = (false, stderr)
         /\ doc = inject t c p
         /\ msgs = refine_messages d t (Locals c p stderr).
Proof.
  intros pre doc verdict a msgs ans post H.
  destruct (loop_run_prompts (main_workflow_sound world d t st))
    as (delta & Htr & _ & Hadj).
  { simpl. repeat constructor; discriminate. }
  simpl in Htr. rewrite Htr in H. apply app_inv_head in H.
  destruct (Hadj _ _ _ _ _ _ _ H) as (Ha & v & Hv & Hd & Hm).
  split; [exact Ha|].
  exists (code_snippet v), (proof_snippet v), (last_error v).
  destruct v; auto.
Qed.

Lemma refinement_prompt_carries_last_lean_error_witness :
  exists c p stderr,
    (false, lit "type mismatch") = (false, stderr)
    /\ lit "T c" = inject (lit "T {{code}}") c p
    /\ refine_messages (lit "task") (lit "T {{code}}")
         (Locals (lit "c") (lit "p") (lit "type mismatch"))
       = refine_messages (lit "task") (lit "T {{code}}") (Locals c p stderr).
Proof.
  apply (refinement_prompt_carries_last_lean_error
           (scripted
              [inr (lit "agent down");
               inl (lit "-- << CODE START >>c-- << CODE END >>-- << PROOF START >>p-- << PROOF END >>");
               inl (lit "nothing")]
              [(false, lit "type mismatch"); (true, [])] [])
           (lit "task") (lit "T {{code}}") start
           [EvGetResponse llm (first_messages (lit "task") (lit "T {{code}}"))
              (inr (lit "agent down"));
            EvSleep 5;
            EvGetResponse llm (first_messages (lit "task") (lit "T {{code}}"))
              (inl (lit "-- << CODE START >>c-- << CODE END >>-- << PROOF START >>p-- << PROOF END >>"))]
           (lit "T c") (false, lit "type mismatch") reasoner
           (refine_messages (lit "task") (lit "T {{code}}")
              (Locals (lit "c") (lit "p") (lit "type mismatch")))
           (inl (lit "nothing"))
           [EvExecuteLean (lit "T c") (true, [])]).
  vm_compute. reflexivity.
Defined.

Lemma loop_run_refinement_agents {d t : text} {idxs : list nat} {st : state}
    {out : outcome LeanCode} {st' : state} :
  loop_run d t idxs st out st' ->
  Forall (fun i => i <> 0) idxs ->
  exists j,
    agents_called (trace st') = agents_called (trace st) ++ repeat reasoner j
    /\ j <= 2 * List.length idxs.
Proof.
  induction 1 as [st | i rest st st' res Hr | i rest st st' e Hr
                  | i rest st st1 st' out Hr Hl IH]; intros Hnz.
  - exists 0. simpl. now rewrite app_nil_r.
  - inversion Hnz as [|? ? Hi _]; subst. inv Hr.
    match goal with Hg : generated _ _ _ _ |- _ =>
      destruct (generated_effects Hg) as (_ & _ & (k & Hk & Hk2) & _) end.
    exists k.
    match goal with Ht : trace st' = _ |- _ => rewrite Ht end.
    rewrite !agents_called_app, Hk, (round_agent_later i Hi). simpl.
    rewrite app_nil_r. split; [reflexivity | lia].
  - inversion Hnz as [|? ? Hi _]; subst. inv Hr.
    + exists 2.
      match goal with Ht : trace st' = _ |- _ => rewrite Ht end.
      rewrite !agents_called_app, (round_agent_later i Hi). simpl.
      split; [reflexivity | lia].
    + match goal with Hg : generated _ _ _ _ |- _ =>
        destruct (generated_effects Hg) as (_ & _ & (k & Hk & Hk2) & _) end.
      exists k.
      match goal with Ht : trace st' = _ |- _ => rewrite Ht end.
      rewrite !agents_called_app, Hk, (round_agent_later i Hi). simpl.
      split; [reflexivity | lia].
  - inversion Hnz as [|? ? Hi Hrest]; subst.
    destruct (IH Hrest) as (j & Hj & Hjl). inv Hr.
    match goal with Hg : generated _ _ _ _ |- _ =>
      destruct (generated_effects Hg) as (_ & _ & (k & Hk & Hk2) & _) end.
    exists (k + j).
    match goal with Ht : trace st1 = _ |- _ => rewrite Ht in Hj end.
    rewrite Hj, !agents_called_app, Hk, (round_agent_later i Hi). simpl.
    rewrite app_nil_r, repeat_app, <- !app_assoc.
    split; [reflexivity | simpl; lia].
Qed.

(** Who is asked.  In any run the primary agent is called once or twice at
    the very beginning and never again; every later call, at most four of
    them, goes to the refinement agent, and there is none unless a first
    Lean run has failed. *)
Theorem primary_agent_first_then_refinement (world : oracle) (d t : text)
    (st : state) :
  exists delta k j,
    trace (snd (main_workflow world d t st)) = trace st ++ delta
    /\ agents_called delta = repeat llm k ++ repeat reasoner j
    /\ 1 <= k <= 2 /\ j <= 4
    /\ (j = 0 \/ exists vs, verdicts delta = false :: vs).
Proof.
  pose proof (main_workflow_sound world d t st) as Hl.
  set (out := fst (main_workflow world d t st)) in *.
  set (st' := snd (main_workflow world d t st)) in *.
  simpl in Hl. inversion Hl as [| ? ? ? ? ? Hr | ? ? ? ? ? Hr
                                | ? ? ? st1 ? ? Hr Hrest]; subst.
  - inv Hr.
    match goal with Hg : generated _ _ _ _ |- _ =>
      destruct (generated_effects Hg) as (_ & _ & (k & Hk & Hk2) & _) end.
    eexists. exists k, 0.
    split; [eassumption|].
    rewrite !agents_called_app, Hk. simpl. splits; auto; lia.
  - inv Hr.
    + eexists. exists 2, 0. split; [eassumption|]. simpl. splits; auto; lia.
    + match goal with Hg : generated _ _ _ _ |- _ =>
        destruct (generated_effects Hg) as (_ & _ & (k & Hk & Hk2) & _) end.
      eexists. exists k, 0. split; [eassumption|].
      rewrite Hk. simpl. rewrite app_nil_r. splits; auto; lia.
  - destruct (loop_run_refinement_agents Hrest) as (j & Hj & Hjl).
    { repeat constructor; discriminate. }
    destruct (loop_run_effects Hrest) as (delta' & Htr' & _).
    inv Hr.
    match goal with Hg : generated _ _ _ _ |- _ =>
      destruct (generated_effects Hg) as (_ & _ & (k & Hk & Hk2) & _);
      destruct (generated_views Hg) as (Hv & _) end.
    match goal with Ht : trace st1 = _ |- _ => rewrite Ht in Htr', Hj end.
    exists ((g ++ [EvExecuteLean
                     (inject t (code_snippet (vars st1))
                        (proof_snippet (vars st1)))
                     (false, last_error (vars st1))]) ++ delta'), k, j.
    split; [now rewrite Htr', <- !app_assoc|].
    assert (Ha : agents_called delta' = repeat reasoner j).
    { rewrite Htr' in Hj. rewrite !agents_called_app in Hj. simpl in Hj.
      rewrite !app_nil_r, <- !app_assoc in Hj.
      now apply app_inv_head in Hj; apply app_inv_head in Hj. }
    rewrite !agents_called_app, !verdicts_app, Hk, Ha, Hv. simpl.
    rewrite app_nil_r. splits; auto; simpl in *; try lia.
    right. eauto.
Qed.

(* ================================================================== *)
(** ** Task loading and the entry point, lines 105-136 *)
(* ================================================================== *)






(** On a file system that does not change, the template returned by
    [get_task_lean_template_from_taskpath] is the one
    [get_problem_and_code_from_taskpath] returns as its second
    component. *)
Theorem template_loaders_agree (world : oracle) (task_path desc tmpl : text)
    (st1 st1' st2 : state) :
  stable_files world ->
  get_problem_and_code_from_taskpath world task_path st1
  = (Ok (desc, tmpl), st1') ->
  fst (get_task_lean_template_from_taskpath world task_path st2) = Ok tmpl.
Proof.
  intros Hstable H.
  unfold get_problem_and_code_from_taskpath, bind, open_read in H.
  unfold get_task_lean_template_from_taskpath, open_read.
  destruct (read_file world (trace st1) _) as [desc'|msg]; [|discriminate H].
  cbn [vars trace] in H.
  match type of H with
  | context [read_file world ?h ?p] =>
      rewrite (Hstable (trace st2) h p);
      destruct (read_file world h p) as [tmpl'|msg]; [|discriminate H]
  end.
  cbn [ret] in H. now injection H as _ <- _.
Qed.

Lemma template_loaders_agree_witness :
  fst (get_task_lean_template_from_taskpath
         (scripted [] []
            [(lit "t/description.txt", lit "D"); (lit "t/task.lean", lit "T")])
         (lit "t") start)
  = Ok (lit "T").
Proof.
  apply (template_loaders_agree
           (scripted [] []
              [(lit "t/description.txt", lit "D"); (lit "t/task.lean", lit "T")])
           (lit "t") (lit "D") (lit "T") start
           (snd (get_problem_and_code_from_taskpath
                   (scripted [] []
                      [(lit "t/description.txt", lit "D");
                       (lit "t/task.lean", lit "T")])
                   (lit "t") start))
           start).
  - intros h1 h2 path. reflexivity.
  - vm_compute. reflexivity.
Defined.





(* ================================================================== *)
(** ** The documents submitted to Lean *)
(* ================================================================== *)

Lemma filled_with_same (t : text) {s1 s2 : state} :
  same_fragments s1 s2 -> filled_with t s1 = filled_with t s2.
Proof. intros [Hc Hp]. unfold filled_with. now rewrite Hc, Hp. Qed.

Lemma documents_for_same (t : text) (rs : list text) {s1 s2 : state} :
  same_fragments s1 s2 -> documents_for t rs s1 = documents_for t rs s2.
Proof.
  revert s1 s2. induction rs as [|r rs IH]; intros s1 s2 H; simpl;
    [reflexivity|].
  destruct (extract_fragments_same r H) as [_ H'].
  now rewrite (filled_with_same t H'), (IH _ _ H').
Qed.

Lemma loop_run_documents {d t : text} {idxs : list nat} {st : state}
    {out : outcome LeanCode} {st' : state} :
  loop_run d t idxs st out st' ->
  exists delta,
    trace st' = trace st ++ delta
    /\ documents delta
       = firstn (List.length (documents delta))
           (documents_for t (responses delta) st)
    /\ List.length (documents delta) <= List.length (responses delta)
       <= S (List.length (documents delta)).
Proof.
  induction 1 as [st | i rest st st' res Hr | i rest st st' e Hr
                  | i rest st st1 st' out Hr Hl IH].
  - exists []. rewrite app_nil_r. simpl. auto.
  - inv Hr.
    match goal with Hg : generated _ _ _ _ |- _ =>
      destruct (generated_views Hg) as (_ & Hd & Hrs & _) end.
    eexists. split; [eassumption|].
    rewrite !documents_app, !responses_app, Hd, Hrs. simpl.
    split; [|lia]. f_equal.
    match goal with Hs : same_fragments _ _ |- _ =>
      exact (filled_with_same t Hs) end.
  - inv Hr.
    + eexists. split; [eassumption|]. simpl. auto.
    + match goal with Hg : generated _ _ _ _ |- _ =>
        destruct (generated_views Hg) as (_ & Hd & Hrs & _) end.
      eexists. split; [eassumption|]. rewrite Hd, Hrs. simpl. auto.
  - destruct IH as (delta & Htr & Hdoc & Hlen). inv Hr.
    match goal with Hg : generated _ _ _ _ |- _ =>
      destruct (generated_views Hg) as (_ & Hd & Hrs & _) end.
    match goal with Ht : trace st1 = _ |- _ => rewrite Ht in Htr end.
    eexists. split; [rewrite Htr, <- app_assoc; reflexivity|].
    rewrite !documents_app, !responses_app, Hd, Hrs. simpl.
    match goal with Hs : same_fragments st1 _ |- _ =>
      rewrite <- (filled_with_same t Hs);
      rewrite <- (documents_for_same t (responses delta) Hs) end.
    split; [|lia]. f_equal. exact Hdoc.
Qed.

(** The documents are a function of the responses alone.  In any run, the
    k-th document submitted to Lean is the template filled with the
    fragments obtained by running the extraction step over the first k
    responses received, starting from empty fragments; the description,
    the error outputs and the failed agent calls play no part in it.
    Every response but possibly the last is followed by a Lean run. *)
Theorem documents_follow_responses (world : oracle) (d t : text)
    (st : state) :
  exists delta,
    trace (snd (main_workflow world d t st)) = trace st ++ delta
    /\ documents delta
       = firstn (List.length (documents delta))
           (documents_for t (responses delta) start)
    /\ List.length (documents delta) <= List.length (responses delta)
       <= S (List.length (documents delta)).
Proof.
  destruct (loop_run_documents (main_workflow_sound world d t st))
    as (delta & Htr & Hdoc & Hlen).
  exists delta. split; [exact Htr|]. split; [|exact Hlen].
  rewrite Hdoc at 1. f_equal. apply documents_for_same. split; reflexivity.
Qed.

Example documents_of_three_rounds :
  let world :=
    scripted
      [inl (lit "-- << CODE START >>c-- << CODE END >>-- << PROOF START >>p-- << PROOF END >>");
       inl (lit "sorry, I cannot help");
       inl (lit "-- << CODE START >>c2-- << CODE END >>")]
      [(false, lit "e"); (false, lit "e"); (false, lit "e")] [] in
  documents (trace (snd (run (main_workflow world (lit "task")
                                (lit "{{code}};{{proof}}")))))
  = [lit "c;p"; lit "c;p"; lit "c2;p"].
Proof. vm_compute. reflexivity. Qed.

(** Receiving the same response a second time changes nothing: the
    extraction step is idempotent on the fragments. *)
Theorem extraction_idempotent (response : text) (st : state) :
  fst (extract_fragments response st) = Ok tt ->
  extract_fragments response (snd (extract_fragments response st))
  = extract_fragments response st.
Proof.
  rewrite !extract_fragments_eq.
  destruct (between_markers CODE_START CODE_END response) as [c|];
    [destruct (between_markers PROOF_START PROOF_END response) as [p|]|];
    try reflexivity;
    rewrite !extract_fallback_eq;
    destruct (second_piece CODE_TOKEN response) as [part|];
    try (destruct (second_piece PROOF_TOKEN_NL part));
    try discriminate; intros _; try reflexivity;
    destruct st as [[? ? ?] ?]; reflexivity.
Qed.

Lemma extraction_idempotent_witness :
  extract_fragments (lit "-- << CODE START >> f -- << CODE END >>")
    (snd (extract_fragments (lit "-- << CODE START >> f -- << CODE END >>")
            (State (Locals (lit "g") (lit "old") []) [])))
  = (Ok tt, State (Locals (lit "f") (lit "old") []) []).
Proof.
  rewrite (extraction_idempotent
             (lit "-- << CODE START >> f -- << CODE END >>")
             (State (Locals (lit "g") (lit "old") []) [])).
  - vm_compute. reflexivity.
  - vm_compute. reflexivity.
Defined.

(* ================================================================== *)
(** ** The worked examples of the specification *)
(* ================================================================== *)

Example split_on_comma :
  split (lit ",") (lit "a,b,,c") = [lit "a"; lit "b"; []; lit "c"].
Proof. reflexivity. Qed.

Example replace_all_occurrences :
  replace (lit "ab") (lit "x") (lit "ababa-ab") = lit "xxa-x".
Proof. reflexivity. Qed.

Example strip_both_ends : strip (lit "  a b 	 ") = lit "a b".
Proof. reflexivity. Qed.

(** Template substitution is exact string replacement. *)
Example inject_exact :
  inject (lit "theorem t := {{code}} {{proof}}") (lit "x") (lit "y")
  = lit "theorem t := x y".
Proof. reflexivity. Qed.

(** Marker extraction ignores the text around the markers. *)
Example extract_from_markers :
  let response :=
    lit "noise -- << CODE START >>impl-- << CODE END >>noise -- << PROOF START >>pf-- << PROOF END >>noise" in
  extract_fragments response start
  = (Ok tt, State (Locals (lit "impl") (lit "pf") []) []).
Proof. reflexivity. Qed.

(** Fallback extraction on a response without markers. *)
Example extract_by_fallback :
  let response :=
    lit "{{code}}" ++ newline ++ lit "IMPL" ++ newline
      ++ lit "{{proof}}" ++ newline ++ lit "PF" in
  extract_fragments response start
  = (Ok tt, State (Locals (lit "IMPL") (lit "PF") []) []).
Proof. reflexivity. Qed.

(** A failure followed by a successful second call does not change the
    round: the same agent is asked with the same messages. *)
Example retry_keeps_round_and_messages :
  let world :=
    scripted [inr (lit "timeout"); inl (lit "no markers")]
      [(false, lit "error")] [] in
  firstn 3 (trace (snd (run (main_workflow world (lit "task") (lit "T")))))
  = [EvGetResponse llm (first_messages (lit "task") (lit "T"))
       (inr (lit "timeout"));
     EvSleep 5;
     EvGetResponse llm (first_messages (lit "task") (lit "T"))
       (inl (lit "no markers"))].
Proof. vm_compute. reflexivity. Qed.
